(** * The canvas interaction core of the node editor ([src/canvas.ts])

    A shallow embedding of the [Canvas] class: the transform engine
    ([createMatrix], [toWorld]), hit testing ([getSelection]), the pointer
    and wheel handlers, [moveNode], and the render step ([paint] and the
    methods it calls).

    Conventions of the embedding.
    - A JavaScript [number] is idealised as a real number.  The code runs
      in IEEE double arithmetic, where results are rounded and a quotient
      by zero is an infinity or NaN.  The statements about the handlers,
      the hit test and the render step therefore repeat the arithmetic
      expressions of the code term by term ([x + dx / scale],
      [scale / (scale * scale)]) and do not simplify them by the field
      laws of the reals.  A statement that holds in exact arithmetic only
      says so, and module [Double] gives the transform engine in double
      arithmetic.
    - A method [m(args)] that mutates [this] becomes a function
      [m args : Canvas -> Canvas]; a method that can throw returns a
      [Completion].
    - The class [Store] of [./store] is not among the sources.  The canvas
      is embedded over the interface [GraphStore] of the operations it
      calls; [ListStore] is the implementation that the examples run on.
    - The host callback [onUpdate] is a pure signal; the canvas counts its
      invocations in the field [updates].
    - The 2D drawing context is the list of drawing commands issued so far.
    - [render] is [paint] followed by the request for the next frame; the
      frame loop itself is not modelled. *)

From Stdlib Require Import Reals Lra Floats.
From stdpp Require Import base option list vector strings relations.

Local Open Scope R_scope.

(** ** Numbers and comparisons *)

Abbreviation number := R.

#[global] Instance Rle_decision (a b : R) : Decision (a <= b) := Rle_dec a b.
#[global] Instance Rge_decision (a b : R) : Decision (a >= b) := Rge_dec a b.
#[global] Instance gt_decision (a b : nat) : Decision (a > b)%nat := gt_dec a b.

(** ** Data model *)

(** Modelled from the spec: the type [ID] is declared in [./store], which is
    not part of the sources; a node has an "identity (unique id)". *)
Definition ID := string.

(** [interface Offset { x: number; y: number }] *)
Module Offset.
Record t := mk { x : number; y : number }.
End Offset.
Abbreviation Offset := Offset.t.

(** [interface Size { width: number; height: number }] *)
Module Size.
Record t := mk { width : number; height : number }.
End Size.
Abbreviation Size := Size.t.

(** [interface CanvasNode extends BaseNode & Offset & Size], with the
    optional [backgroundColor].  Modelled from the spec: [BaseNode] is
    declared in [./store]; the canvas reads its [id] and [name]. *)
Module CanvasNode.
Record t := mk {
  id : ID;
  name : string;
  x : number;
  y : number;
  width : number;
  height : number;
  backgroundColor : option string;
}.

(** [node.x = v] and [node.y = v] *)
Definition set_x (v : number) (n : t) : t :=
  mk (id n) (name n) v (y n) (width n) (height n) (backgroundColor n).
Definition set_y (v : number) (n : t) : t :=
  mk (id n) (name n) (x n) v (width n) (height n) (backgroundColor n).
End CanvasNode.
Abbreviation CanvasNode := CanvasNode.t.

(** [type Rect = Offset & Size] *)
Module Rect.
Record t := mk { x : number; y : number; width : number; height : number }.
End Rect.
Abbreviation Rect := Rect.t.

(** Modelled from the spec: [NodeEdge] is declared in [./store]; it
    "references a start node id and end node id". *)
Module NodeEdge.
Record t := mk { startNode : ID; endNode : ID }.
End NodeEdge.
Abbreviation NodeEdge := NodeEdge.t.

(** [enum PointerAction { NONE, ZOOM, PAN, MOVE }] *)
Inductive PointerAction := NONE | ZOOM | PAN | MOVE.

#[global] Instance PointerAction_eq_dec : EqDecision PointerAction.
Proof. solve_decision. Defined.

(** The fields of the DOM events that the handlers read. *)
Module WheelEvent.
Record t := mk { ctrlKey : bool; deltaX : number; deltaY : number }.
End WheelEvent.
Abbreviation WheelEvent := WheelEvent.t.

Module MouseEvent.
Record t := mk { offsetX : number; offsetY : number }.
End MouseEvent.
Abbreviation MouseEvent := MouseEvent.t.

(** The calls on [CanvasRenderingContext2D] made by the render step. *)
Inductive DrawCmd :=
| SetTransform (a b c d e f : number)
| ClearRect (x y w h : number)
| Save
| Restore
| FillStyle (s : string)
| FillRect (x y w h : number)
| MoveTo (x y : number)
| Translate (x y : number)
| Font (s : string)
| TextAlign (s : string)
| FillText (text : string) (x y : number)
| StrokeStyle (s : string)
| StrokeRect (x y w h : number)
| BeginPath
| BezierCurveTo (cp1x cp1y cp2x cp2y x y : number)
| Stroke.

(** ** The graph store

    Modelled from the spec: the class [Store] lives in [./store], which is
    not part of the sources.  The canvas uses it through the contract of
    the spec's section 6: [nodes] and [edges] are "stable-order readable
    sequences", [retrieveNode(id)] yields "node or absent", [updateNode(node)]
    persists a node and [deleteNode(id)] removes one.  The canvas code is
    embedded over any implementation of this interface. *)
Class GraphStore (Store : Type) := {
  nodes : Store -> list CanvasNode;
  edges : Store -> list NodeEdge;
  retrieveNode : Store -> ID -> option CanvasNode;
  updateNode : Store -> CanvasNode -> Store;
  deleteNode : Store -> ID -> Store;
}.

(** ** The canvas state *)

Section Canvas.
Context {Store : Type} `{GraphStore Store}.

(** The fields of [class Canvas].  [size] stands for the width and height
    of the DOM canvas, [cursor] for [canvas.style.cursor], [ctx] for the
    commands the drawing context has received, and [updates] for the number
    of times [onUpdate] has been called. *)
Record Canvas := mkCanvas {
  size : Size;
  store : Store;
  offset : Offset;
  scale : number;
  action : PointerAction;
  lastOffset : option Offset;
  ctx : list DrawCmd;
  selected : list ID;
  hovered : list ID;
  matrix : vec number 6;
  invMatrix : vec number 4;
  cursor : string;
  updates : nat;
}.

(** Field assignments [this.f = v]. *)
Definition set_size (v : Size) (c : Canvas) : Canvas :=
  mkCanvas v (store c) (offset c) (scale c) (action c) (lastOffset c) (ctx c)
    (selected c) (hovered c) (matrix c) (invMatrix c) (cursor c) (updates c).
Definition set_store (v : Store) (c : Canvas) : Canvas :=
  mkCanvas (size c) v (offset c) (scale c) (action c) (lastOffset c) (ctx c)
    (selected c) (hovered c) (matrix c) (invMatrix c) (cursor c) (updates c).
Definition set_offset (v : Offset) (c : Canvas) : Canvas :=
  mkCanvas (size c) (store c) v (scale c) (action c) (lastOffset c) (ctx c)
    (selected c) (hovered c) (matrix c) (invMatrix c) (cursor c) (updates c).
Definition set_scale (v : number) (c : Canvas) : Canvas :=
  mkCanvas (size c) (store c) (offset c) v (action c) (lastOffset c) (ctx c)
    (selected c) (hovered c) (matrix c) (invMatrix c) (cursor c) (updates c).
Definition set_action (v : PointerAction) (c : Canvas) : Canvas :=
  mkCanvas (size c) (store c) (offset c) (scale c) v (lastOffset c) (ctx c)
    (selected c) (hovered c) (matrix c) (invMatrix c) (cursor c) (updates c).
Definition set_lastOffset (v : option Offset) (c : Canvas) : Canvas :=
  mkCanvas (size c) (store c) (offset c) (scale c) (action c) v (ctx c)
    (selected c) (hovered c) (matrix c) (invMatrix c) (cursor c) (updates c).
Definition set_ctx (v : list DrawCmd) (c : Canvas) : Canvas :=
  mkCanvas (size c) (store c) (offset c) (scale c) (action c) (lastOffset c) v
    (selected c) (hovered c) (matrix c) (invMatrix c) (cursor c) (updates c).
Definition set_selected (v : list ID) (c : Canvas) : Canvas :=
  mkCanvas (size c) (store c) (offset c) (scale c) (action c) (lastOffset c) (ctx c)
    v (hovered c) (matrix c) (invMatrix c) (cursor c) (updates c).
Definition set_hovered (v : list ID) (c : Canvas) : Canvas :=
  mkCanvas (size c) (store c) (offset c) (scale c) (action c) (lastOffset c) (ctx c)
    (selected c) v (matrix c) (invMatrix c) (cursor c) (updates c).
Definition set_matrix (v : vec number 6) (c : Canvas) : Canvas :=
  mkCanvas (size c) (store c) (offset c) (scale c) (action c) (lastOffset c) (ctx c)
    (selected c) (hovered c) v (invMatrix c) (cursor c) (updates c).
Definition set_invMatrix (v : vec number 4) (c : Canvas) : Canvas :=
  mkCanvas (size c) (store c) (offset c) (scale c) (action c) (lastOffset c) (ctx c)
    (selected c) (hovered c) (matrix c) v (cursor c) (updates c).
Definition set_cursor (v : string) (c : Canvas) : Canvas :=
  mkCanvas (size c) (store c) (offset c) (scale c) (action c) (lastOffset c) (ctx c)
    (selected c) (hovered c) (matrix c) (invMatrix c) v (updates c).
Definition set_updates (v : nat) (c : Canvas) : Canvas :=
  mkCanvas (size c) (store c) (offset c) (scale c) (action c) (lastOffset c) (ctx c)
    (selected c) (hovered c) (matrix c) (invMatrix c) (cursor c) v.

(** The field initialisers of the class, for a canvas over store [s] with
    DOM size [sz]: zero offset, scale 1, identity matrices, nothing selected
    or hovered, [onUpdate] never called. *)
Definition initial (sz : Size) (s : Store) : Canvas :=
  mkCanvas sz s (Offset.mk 0 0) 1 NONE None [] [] []
    [# 1; 0; 0; 1; 0; 0] [# 1; 0; 0; 1] "" 0%nat.

(** The outcome of a method that may throw: it either returns, or throws a
    [TypeError] (a property read on [undefined]); both carry the canvas as
    the method left it. *)
Inductive Completion :=
| Normal (c : Canvas)
| TypeError (c : Canvas).

Definition bind (r : Completion) (k : Canvas -> Completion) : Completion :=
  match r with
  | Normal c => k c
  | TypeError c => TypeError c
  end.

(** The canvas a completion carries. *)
Definition outcome (r : Completion) : Canvas :=
  match r with
  | Normal c => c
  | TypeError c => c
  end.

(** [this.onUpdate()]: the host is signalled once more. *)
Definition onUpdate (c : Canvas) : Canvas :=
  set_updates (S (updates c)) c.

(** ** Transform engine *)

(** [createMatrix(x, y, scale, rotate)], assignment by assignment. *)
Definition createMatrix (x y scale rotate : number) (c : Canvas) : Canvas :=
  let m := matrix c in
  let im := invMatrix c in
  (* m[3] = m[0] = Math.cos(rotate) * scale *)
  let v := cos rotate * scale in
  let m := vinsert 0%fin v m in
  let m := vinsert 3%fin v m in
  (* m[2] = -(m[1] = Math.sin(rotate) * scale) *)
  let v := sin rotate * scale in
  let m := vinsert 1%fin v m in
  let m := vinsert 2%fin (- v) m in
  (* m[4] = x; m[5] = y *)
  let m := vinsert 4%fin x m in
  let m := vinsert 5%fin y m in
  (* const cross = m[0] * m[3] - m[1] * m[2] *)
  let cross := m !!! 0%fin * m !!! 3%fin - m !!! 1%fin * m !!! 2%fin in
  (* im[0] = m[3] / cross; im[1] = -m[1] / cross;
     im[2] = -m[2] / cross; im[3] = m[0] / cross *)
  let im := vinsert 0%fin (m !!! 3%fin / cross) im in
  let im := vinsert 1%fin (- m !!! 1%fin / cross) im in
  let im := vinsert 2%fin (- m !!! 2%fin / cross) im in
  let im := vinsert 3%fin (m !!! 0%fin / cross) im in
  set_invMatrix im (set_matrix m c).

(** The determinant of the linear part of the forward matrix: the value
    of [cross] in [createMatrix], read off the matrix it has just written
    (see [createMatrix_divides_by_cross]). *)
Definition cross (c : Canvas) : number :=
  let m := matrix c in
  m !!! 0%fin * m !!! 3%fin - m !!! 1%fin * m !!! 2%fin.

(** [toWorld(x, y)] *)
Definition toWorld (x y : number) (c : Canvas) : Offset :=
  let m := invMatrix c in
  let xx := x - matrix c !!! 4%fin in
  let yy := y - matrix c !!! 5%fin in
  Offset.mk (xx * m !!! 0%fin + yy * m !!! 2%fin)
            (xx * m !!! 1%fin + yy * m !!! 3%fin).

(** The map from world to screen that [ctx.setTransform(m[0], ..., m[5])]
    installs in [paint]: by the Canvas 2D API a point [(x, y)] is sent to
    [(m0 x + m2 y + m4, m1 x + m3 y + m5)]. *)
Definition forward (m : vec number 6) (p : Offset) : Offset :=
  Offset.mk
    (m !!! 0%fin * Offset.x p + m !!! 2%fin * Offset.y p + m !!! 4%fin)
    (m !!! 1%fin * Offset.x p + m !!! 3%fin * Offset.y p + m !!! 5%fin).

(** ** Hit testing *)

(** The test of the loop body of [getSelection]: the world point lies in
    the rectangle of [node], bounds included. *)
Definition overlaps (localOffset : Offset) (node : CanvasNode) : Prop :=
  Offset.x localOffset >= CanvasNode.x node /\
  Offset.x localOffset <= CanvasNode.x node + CanvasNode.width node /\
  Offset.y localOffset >= CanvasNode.y node /\
  Offset.y localOffset <= CanvasNode.y node + CanvasNode.height node.

#[global] Instance overlaps_dec p n : Decision (overlaps p n).
Proof. unfold overlaps. apply _. Defined.

(** [getSelection(target)]: the [for ... of this.store.nodes] loop pushes
    the id of every hit onto [items]. *)
Definition getSelection (target : Offset) (c : Canvas) : list ID :=
  let localOffset := toWorld (Offset.x target) (Offset.y target) c in
  foldl
    (fun items node =>
       if decide (overlaps localOffset node)
       then items ++ [CanvasNode.id node]
       else items)
    [] (nodes (store c)).

(** [selectedNode()] and [hoveredNode()]: the node the store resolves the
    last id of the array to, if any. *)
Definition selectedNode (c : Canvas) : option CanvasNode :=
  match last (selected c) with
  | None => None
  | Some id => retrieveNode (store c) id
  end.

Definition hoveredNode (c : Canvas) : option CanvasNode :=
  match last (hovered c) with
  | None => None
  | Some id => retrieveNode (store c) id
  end.

(** ** Interaction handlers *)

(** [clear()]: [this.selected.splice(0, this.selected.length)], then
    [onUpdate]. *)
Definition clear (c : Canvas) : Canvas :=
  onUpdate (set_selected [] c).

(** [import(value)].  [Store.fromJson] is not part of the sources: the
    store it parses [value] to is taken as the argument. *)
Definition import (parsed : Store) (c : Canvas) : Canvas :=
  set_store parsed c.

(** [resize(size)], with the size that [size ?? {...}] evaluates to; the
    width and height of the DOM canvas follow [this.size]. *)
Definition resize (sz : Size) (c : Canvas) : Canvas :=
  set_size sz c.

(** [Canvas.deleteNode(node)] *)
Definition canvasDeleteNode (node : CanvasNode) (c : Canvas) : Canvas :=
  clear (set_store (deleteNode (store c) (CanvasNode.id node)) c).

(** [onWheel(e)] *)
Definition onWheel (e : WheelEvent) (c : Canvas) : Canvas :=
  let c :=
    if WheelEvent.ctrlKey e then
      let c := set_action ZOOM c in
      set_scale (scale c - WheelEvent.deltaY e * 0.01) c
    else
      let c := set_action PAN c in
      let c := set_offset
        (Offset.mk (Offset.x (offset c) - WheelEvent.deltaX e * 2)
                   (Offset.y (offset c))) c in
      set_offset
        (Offset.mk (Offset.x (offset c))
                   (Offset.y (offset c) - WheelEvent.deltaY e * 2)) c in
  let c := onUpdate c in
  set_action NONE c.

(** [onMouseDown(e)] *)
Definition onMouseDown (e : MouseEvent) (c : Canvas) : Canvas :=
  let point := Offset.mk (MouseEvent.offsetX e) (MouseEvent.offsetY e) in
  let c := set_lastOffset (Some point) c in
  let c := set_action MOVE c in
  let c := clear c in
  let selection := getSelection point c in
  let c := set_selected (selected c ++ selection) c in
  onUpdate c.

(** [onMouseUp(_)] *)
Definition onMouseUp (e : MouseEvent) (c : Canvas) : Canvas :=
  let c := set_lastOffset None c in
  set_action NONE c.

(** [moveNode(node, delta)].  The method updates the fields of the object
    it is given and hands it to the store; the result pairs that object,
    as the caller sees it afterwards, with the canvas.  In [onMouseMove]
    the object is the one [retrieveNode] returned, so the store ends up
    holding the moved node whether it keeps nodes by reference or by
    value. *)
Definition moveNode (node : CanvasNode) (delta : Offset) (c : Canvas)
  : CanvasNode * Canvas :=
  let node := CanvasNode.set_x (CanvasNode.x node + Offset.x delta / scale c) node in
  let node := CanvasNode.set_y (CanvasNode.y node + Offset.y delta / scale c) node in
  (node, set_store (updateNode (store c) node) c).

(** [checkHover(offset)] *)
Definition checkHover (offset : Offset) (c : Canvas) : Canvas :=
  let c := set_hovered [] c in
  let selection := getSelection offset c in
  let c := set_hovered (hovered c ++ selection) c in
  match hoveredNode c with
  | Some _ => set_cursor "pointer" c
  | None => set_cursor "default" c
  end.

(** [onMouseMove(e)].  [this.lastOffset!.x] reads a property of
    [this.lastOffset]: when that is [undefined] the read throws before
    anything is changed. *)
Definition onMouseMove (e : MouseEvent) (c : Canvas) : Completion :=
  if decide (action c = MOVE /\ (length (selected c) > 0)%nat) then
    match lastOffset c with
    | None => TypeError c
    | Some origin =>
        let delta :=
          Offset.mk (MouseEvent.offsetX e - Offset.x origin)
                    (MouseEvent.offsetY e - Offset.y origin) in
        let c :=
          match selectedNode c with
          | Some node => snd (moveNode node delta c)
          | None => c
          end in
        Normal
          (set_lastOffset
             (Some (Offset.mk (MouseEvent.offsetX e) (MouseEvent.offsetY e))) c)
    end
  else
    Normal (checkHover (Offset.mk (MouseEvent.offsetX e) (MouseEvent.offsetY e)) c).

(** ** Render step *)

(** One call on [this.ctx]. *)
Definition draw (cmd : DrawCmd) (c : Canvas) : Canvas :=
  set_ctx (ctx c ++ [cmd]) c.

(** [scopedPaint(action)] *)
Definition scopedPaint (paintAction : Canvas -> Canvas) (c : Canvas) : Canvas :=
  let c := draw Save c in
  let c := paintAction c in
  draw Restore c.

(** [renderBackground()] *)
Definition renderBackground (c : Canvas) : Canvas :=
  let c := draw Save c in
  let c := draw (FillStyle "whitesmoke") c in
  let c := draw (FillRect 0 0 (Size.width (size c)) (Size.height (size c))) c in
  draw Restore c.

(** [renderNode(node)].  [this.selectedNode()?.id === node.id] is false
    when there is no selected node. *)
Definition renderNode (node : CanvasNode) (c : Canvas) : Canvas :=
  let c := draw Save c in
  let c := draw (MoveTo (CanvasNode.x node) (CanvasNode.y node)) c in
  let isSelected :=
    match selectedNode c with
    | Some n => bool_decide (CanvasNode.id n = CanvasNode.id node)
    | None => false
    end in
  let isHovered :=
    match hoveredNode c with
    | Some n => bool_decide (CanvasNode.id n = CanvasNode.id node)
    | None => false
    end in
  let c :=
    scopedPaint
      (fun c =>
         let c := draw (Translate (CanvasNode.x node) (CanvasNode.y node - 5)) c in
         let c := draw (Font "12px Arial") c in
         let c := draw (TextAlign "left") c in
         let c := draw (FillStyle "black") c in
         draw (FillText (CanvasNode.name node) 0 0) c)
      c in
  let c := draw (FillStyle (default "white" (CanvasNode.backgroundColor node))) c in
  let c := draw (FillRect (CanvasNode.x node) (CanvasNode.y node)
                          (CanvasNode.width node) (CanvasNode.height node)) c in
  let c := draw (StrokeStyle
                   (if isSelected then "red" else if isHovered then "blue" else "black")) c in
  let c := draw (StrokeRect (CanvasNode.x node) (CanvasNode.y node)
                            (CanvasNode.width node) (CanvasNode.height node)) c in
  draw Restore c.

(** [renderNodes()] *)
Definition renderNodes (c : Canvas) : Canvas :=
  foldl (fun c node => renderNode node c) c (nodes (store c)).

(** [renderEdge(edge)].  The postfix [!] on the two [retrieveNode] calls is
    erased by the compiler; the first property read on an absent node,
    [startNode.x] or else [endNode.x], throws. *)
Definition renderEdge (edge : NodeEdge) (c : Canvas) : Completion :=
  let c := draw Save c in
  let startNode := retrieveNode (store c) (NodeEdge.startNode edge) in
  let endNode := retrieveNode (store c) (NodeEdge.endNode edge) in
  match startNode with
  | None => TypeError c
  | Some startNode =>
      let start :=
        Rect.mk (CanvasNode.x startNode + CanvasNode.width startNode / 2)
                (CanvasNode.y startNode + CanvasNode.height startNode / 2)
                (CanvasNode.width startNode)
                (CanvasNode.height startNode) in
      match endNode with
      | None => TypeError c
      | Some endNode =>
          let end_ :=
            Rect.mk (CanvasNode.x endNode + CanvasNode.width endNode / 2)
                    (CanvasNode.y endNode + CanvasNode.height endNode / 2)
                    (CanvasNode.width endNode)
                    (CanvasNode.height endNode) in
          let c :=
            scopedPaint
              (fun c =>
                 let c := draw BeginPath c in
                 let c := draw (StrokeStyle "black") c in
                 let c := draw (MoveTo (Rect.x start) (Rect.y start)) c in
                 let c := draw
                   (BezierCurveTo
                      (Rect.x start + Rect.width start / 2) (Rect.y start)
                      (Rect.x end_ - Rect.width end_ / 2) (Rect.y end_)
                      (Rect.x end_) (Rect.y end_)) c in
                 draw Stroke c)
              c in
          Normal (draw Restore c)
      end
  end.

(** [renderEdges()]: the loop ends at the first edge whose rendering
    throws. *)
Definition renderEdges (c : Canvas) : Completion :=
  foldl (fun r edge => bind r (renderEdge edge)) (Normal c) (edges (store c)).

(** [paint()] *)
Definition paint (c : Canvas) : Completion :=
  let c := draw (SetTransform 1 0 0 1 0 0) c in
  let c := draw (ClearRect 0 0 (Size.width (size c)) (Size.height (size c))) c in
  let c := renderBackground c in
  let c := createMatrix (Offset.x (offset c)) (Offset.y (offset c)) (scale c) 0 c in
  let m := matrix c in
  let c := draw (SetTransform (m !!! 0%fin) (m !!! 1%fin) (m !!! 2%fin)
                              (m !!! 3%fin) (m !!! 4%fin) (m !!! 5%fin)) c in
  bind (renderEdges c) (fun c => Normal (renderNodes c)).

(** ** Vocabulary of the render properties *)

(** An edge resolves when the store has a node for each of its two ids. *)
Definition resolves (s : Store) (edge : NodeEdge) : Prop :=
  is_Some (retrieveNode s (NodeEdge.startNode edge)) /\
  is_Some (retrieveNode s (NodeEdge.endNode edge)).

(** The calls that draw an edge from the centre of [startNode] to the
    centre of [endNode]: a cubic curve whose control points sit half a node
    width to the right of the start and to the left of the end. *)
Definition edgeDrawing (startNode endNode : CanvasNode) : list DrawCmd :=
  let sx := CanvasNode.x startNode + CanvasNode.width startNode / 2 in
  let sy := CanvasNode.y startNode + CanvasNode.height startNode / 2 in
  let ex := CanvasNode.x endNode + CanvasNode.width endNode / 2 in
  let ey := CanvasNode.y endNode + CanvasNode.height endNode / 2 in
  [ Save; Save; BeginPath; StrokeStyle "black"; MoveTo sx sy;
    BezierCurveTo (sx + CanvasNode.width startNode / 2) sy
                  (ex - CanvasNode.width endNode / 2) ey ex ey;
    Stroke; Restore; Restore ].

#[global] Instance resolves_dec s edge : Decision (resolves s edge).
Proof. unfold resolves. apply _. Defined.

(** The calls that draw a node with its outline in [colour]: the label
    five units above the corner, the filled rectangle, the outline. *)
Definition nodeDrawing (node : CanvasNode) (colour : string) : list DrawCmd :=
  [ Save; MoveTo (CanvasNode.x node) (CanvasNode.y node);
    Save; Translate (CanvasNode.x node) (CanvasNode.y node - 5);
    Font "12px Arial"; TextAlign "left"; FillStyle "black";
    FillText (CanvasNode.name node) 0 0; Restore;
    FillStyle (default "white" (CanvasNode.backgroundColor node));
    FillRect (CanvasNode.x node) (CanvasNode.y node)
             (CanvasNode.width node) (CanvasNode.height node);
    StrokeStyle colour;
    StrokeRect (CanvasNode.x node) (CanvasNode.y node)
               (CanvasNode.width node) (CanvasNode.height node);
    Restore ].

(** [node] is the primary selected, respectively hovered, node: the last
    id of the array resolves to a node with the id of [node]. *)
Definition primarySelected (c : Canvas) (node : CanvasNode) : Prop :=
  exists n, selectedNode c = Some n /\ CanvasNode.id n = CanvasNode.id node.

Definition primaryHovered (c : Canvas) (node : CanvasNode) : Prop :=
  exists n, hoveredNode c = Some n /\ CanvasNode.id n = CanvasNode.id node.

#[global] Instance primarySelected_dec c node : Decision (primarySelected c node).
Proof.
  unfold primarySelected. destruct (selectedNode c) as [n|].
  - destruct (decide (CanvasNode.id n = CanvasNode.id node)) as [Heq|Hne].
    + left. eauto.
    + right. intros (n' & [= <-] & Hid). contradiction.
  - right. intros (n' & Hn & _). discriminate.
Defined.

#[global] Instance primaryHovered_dec c node : Decision (primaryHovered c node).
Proof.
  unfold primaryHovered. destruct (hoveredNode c) as [n|].
  - destruct (decide (CanvasNode.id n = CanvasNode.id node)) as [Heq|Hne].
    + left. eauto.
    + right. intros (n' & [= <-] & Hid). contradiction.
  - right. intros (n' & Hn & _). discriminate.
Defined.

(** The outline colour of [node] on canvas [c]: red for the primary
    selected node, else blue for the primary hovered node, else black. *)
Definition outlineColour (c : Canvas) (node : CanvasNode) : string :=
  if decide (primarySelected c node) then "red"
  else if decide (primaryHovered c node) then "blue"
  else "black".

(** The calls of the loop of [renderEdges] over the edges [l]: the drawing
    of each edge up to the first one that does not resolve, for which only
    [ctx.save()] is reached. *)
Fixpoint edgesDrawing (s : Store) (l : list NodeEdge) : list DrawCmd :=
  match l with
  | [] => []
  | edge :: l =>
      match retrieveNode s (NodeEdge.startNode edge),
            retrieveNode s (NodeEdge.endNode edge) with
      | Some startNode, Some endNode =>
          edgeDrawing startNode endNode ++ edgesDrawing s l
      | _, _ => [Save]
      end
  end.

(** The calls with which [paint] opens a frame: reset the transform, clear
    the surface, fill the background, install the transform of the canvas:
    scale [scale] and translation [offset], no rotation. *)
Definition frameStart (c : Canvas) : list DrawCmd :=
  [ SetTransform 1 0 0 1 0 0;
    ClearRect 0 0 (Size.width (size c)) (Size.height (size c));
    Save; FillStyle "whitesmoke";
    FillRect 0 0 (Size.width (size c)) (Size.height (size c));
    Restore;
    SetTransform (scale c) 0 0 (scale c)
                 (Offset.x (offset c)) (Offset.y (offset c)) ].

(** The depth of the state stack of the drawing context after the calls
    [l], starting at depth [d]; [None] when a [restore()] meets an empty
    stack. *)
Fixpoint contextDepth (d : nat) (l : list DrawCmd) : option nat :=
  match l with
  | [] => Some d
  | Save :: l => contextDepth (S d) l
  | Restore :: l =>
      match d with
      | O => None
      | S d => contextDepth d l
      end
  | _ :: l => contextDepth d l
  end.

(** The inverse linear part that [createMatrix] writes, in terms of the
    forward matrix it has just written: the adjugate entries over
    [cross]. *)
Definition adjugateOverCross (c : Canvas) : vec number 4 :=
  let m := matrix c in
  [# m !!! 3%fin / cross c; - m !!! 1%fin / cross c;
     - m !!! 2%fin / cross c; m !!! 0%fin / cross c].

(** ** The canvas as a transition system *)

(** One call of a method of the class that assigns to the canvas: a
    handler of a DOM event, a frame, or a call by the host of one of the
    methods the class leaves public ([createMatrix] with any arguments,
    [moveNode], [checkHover] among them).  The methods that only read
    ([toWorld], [getSelection], [selectedNode], [hoveredNode]) make no
    step.  A pointer move that throws makes no step; a frame that throws
    leaves the canvas as [paint] had it at the throw. *)
Inductive step : Canvas -> Canvas -> Prop :=
| step_wheel e c : step c (onWheel e c)
| step_mouseDown e c : step c (onMouseDown e c)
| step_mouseUp e c : step c (onMouseUp e c)
| step_mouseMove e c c' : onMouseMove e c = Normal c' -> step c c'
| step_clear c : step c (clear c)
| step_deleteNode node c : step c (canvasDeleteNode node c)
| step_import parsed c : step c (import parsed c)
| step_resize sz c : step c (resize sz c)
| step_paint c : step c (outcome (paint c))
| step_createMatrix x y scale rotate c : step c (createMatrix x y scale rotate c)
| step_moveNode node delta c : step c (moveNode node delta c).2
| step_checkHover point c : step c (checkHover point c).

(** While the action is [MOVE] a last offset is recorded. *)
Definition recorded (c : Canvas) : Prop :=
  action c = MOVE -> is_Some (lastOffset c).

(** The canvases that method calls lead to from a fresh one. *)
Definition reachable (c : Canvas) : Prop :=
  exists sz s, rtc step (initial sz s) c.

End Canvas.

Arguments Canvas Store : clear implicits.
Arguments Completion Store : clear implicits.

(** ** The transform engine in double arithmetic

    The same three maps over IEEE binary64 numbers, the arithmetic the code
    runs in.  [Math.cos(rotate)] and [Math.sin(rotate)] are not operations
    of the format; their two values are arguments here.  For [rotate = 0],
    the only rotation [paint] passes, they are [1] and [0]. *)

Module Double.

(** [createMatrix(x, y, scale, rotate)] on the arrays [m] and [im], with
    [cosRotate = Math.cos(rotate)] and [sinRotate = Math.sin(rotate)]. *)
Definition createMatrix (x y scale cosRotate sinRotate : float)
    (m : vec float 6) (im : vec float 4) : vec float 6 * vec float 4 :=
  (* m[3] = m[0] = Math.cos(rotate) * scale *)
  let v := (cosRotate * scale)%float in
  let m := vinsert 0%fin v m in
  let m := vinsert 3%fin v m in
  (* m[2] = -(m[1] = Math.sin(rotate) * scale) *)
  let v := (sinRotate * scale)%float in
  let m := vinsert 1%fin v m in
  let m := vinsert 2%fin (- v)%float m in
  (* m[4] = x; m[5] = y *)
  let m := vinsert 4%fin x m in
  let m := vinsert 5%fin y m in
  (* const cross = m[0] * m[3] - m[1] * m[2] *)
  let cross := (m !!! 0%fin * m !!! 3%fin - m !!! 1%fin * m !!! 2%fin)%float in
  (* im[0] = m[3] / cross; im[1] = -m[1] / cross;
     im[2] = -m[2] / cross; im[3] = m[0] / cross *)
  let im := vinsert 0%fin (m !!! 3%fin / cross)%float im in
  let im := vinsert 1%fin (- m !!! 1%fin / cross)%float im in
  let im := vinsert 2%fin (- m !!! 2%fin / cross)%float im in
  let im := vinsert 3%fin (m !!! 0%fin / cross)%float im in
  (m, im).

(** [toWorld(x, y)] on the arrays [m] and [im]. *)
Definition toWorld (x y : float) (m : vec float 6) (im : vec float 4)
    : float * float :=
  let xx := (x - m !!! 4%fin)%float in
  let yy := (y - m !!! 5%fin)%float in
  ((xx * im !!! 0%fin + yy * im !!! 2%fin)%float,
   (xx * im !!! 1%fin + yy * im !!! 3%fin)%float).

(** The map that [ctx.setTransform(m[0], ..., m[5])] installs. *)
Definition forward (m : vec float 6) (p : float * float) : float * float :=
  ((m !!! 0%fin * p.1 + m !!! 2%fin * p.2 + m !!! 4%fin)%float,
   (m !!! 1%fin * p.1 + m !!! 3%fin * p.2 + m !!! 5%fin)%float).

(** The round trip on a fresh canvas: [createMatrix(ox, oy, s, 0)] on the
    initial arrays, the forward matrix applied to [p], then [toWorld]. *)
Definition roundTrip (ox oy s : float) (p : float * float) : float * float :=
  let '(m, im) :=
    createMatrix ox oy s 1 0 [# 1; 0; 0; 1; 0; 0]%float [# 1; 0; 0; 1]%float in
  let q := forward m p in
  toWorld q.1 q.2 m im.

End Double.

(** ** A store kept as two arrays

    Modelled from the spec: [./store] is not part of the sources.  This
    implementation of the store contract keeps nodes and edges in
    insertion order; [retrieveNode] finds the first node with the id,
    [updateNode] replaces that node and is a no-op for an unknown id, and
    [deleteNode] removes the node together with the edges that reference
    it.  It serves as the concrete store of the examples. *)
Record ListStore := mkListStore {
  ls_nodes : list CanvasNode;
  ls_edges : list NodeEdge;
}.

Definition ls_retrieveNode (s : ListStore) (i : ID) : option CanvasNode :=
  head (filter (fun n => CanvasNode.id n = i) (ls_nodes s)).

Fixpoint replaceNode (node : CanvasNode) (l : list CanvasNode) : list CanvasNode :=
  match l with
  | [] => []
  | n :: l =>
      if decide (CanvasNode.id n = CanvasNode.id node)
      then node :: l
      else n :: replaceNode node l
  end.

Definition ls_updateNode (s : ListStore) (node : CanvasNode) : ListStore :=
  mkListStore (replaceNode node (ls_nodes s)) (ls_edges s).

Definition ls_deleteNode (s : ListStore) (i : ID) : ListStore :=
  mkListStore
    (filter (fun n => CanvasNode.id n <> i) (ls_nodes s))
    (filter (fun e => NodeEdge.startNode e <> i /\ NodeEdge.endNode e <> i) (ls_edges s)).

#[global] Instance ListStore_GraphStore : GraphStore ListStore := {
  nodes := ls_nodes;
  edges := ls_edges;
  retrieveNode := ls_retrieveNode;
  updateNode := ls_updateNode;
  deleteNode := ls_deleteNode;
}.

(** The part of the store contract that the frame property of [moveNode]
    rests on: [updateNode(node)] keeps the order of the nodes and touches
    no node with another id; position by position, a node is left as it
    was or, if it has the id of [node], replaced by [node]. *)
Class GraphStoreFrame (Store : Type) `{GraphStore Store} : Prop := {
  updateNode_nodes (s : Store) (node : CanvasNode) :
    Forall2
      (fun n n' => n' = n \/ (CanvasNode.id n = CanvasNode.id node /\ n' = node))
      (nodes s) (nodes (updateNode s node));
}.

(** ** Example data *)

(** Two nodes joined by an edge, on a fresh canvas. *)
Definition node1 : CanvasNode := CanvasNode.mk "n1" "first" 10 10 20 20 None.
Definition node2 : CanvasNode := CanvasNode.mk "n2" "second" 100 100 20 20 (Some "pink").
Definition demoStore : ListStore := mkListStore [node1; node2] [NodeEdge.mk "n1" "n2"].
Definition demoCanvas : Canvas ListStore := initial (Size.mk 800 600) demoStore.

(** The canvas after a press at [(px, py)] that selected [sel]. *)
Definition pressedAt (px py : number) (sel : list ID) : Canvas ListStore :=
  mkCanvas (Size.mk 800 600) demoStore (Offset.mk 0 0) 1 MOVE
    (Some (Offset.mk px py)) [] sel []
    [# 1; 0; 0; 1; 0; 0] [# 1; 0; 0; 1] "" 2%nat.

(** A large node behind the first node. *)
Definition backNode : CanvasNode := CanvasNode.mk "back" "behind" 0 0 50 50 None.
Definition stackedCanvas : Canvas ListStore :=
  initial (Size.mk 800 600) (mkListStore [backNode; node1] []).

(** A store whose first edge points at a node that is not there, followed
    by an edge that resolves. *)
Definition danglingStore : ListStore :=
  mkListStore [node1] [NodeEdge.mk "n1" "gone"; NodeEdge.mk "n1" "n1"].
Definition danglingCanvas : Canvas ListStore :=
  initial (Size.mk 800 600) danglingStore.

(** * Properties *)

(** Reduces field reads of assignments and drawing calls, innermost
    first. *)
Ltac canvas_fields :=
  cbv beta iota zeta delta
    [size store offset scale action lastOffset ctx selected hovered matrix
     invMatrix cursor updates
     set_size set_store set_offset set_scale set_action set_lastOffset set_ctx
     set_selected set_hovered set_matrix set_invMatrix set_cursor set_updates
     draw scopedPaint onUpdate clear initial].

Section Properties.
Context {Store : Type} `{GraphStore Store}.
Implicit Types (c : Canvas Store) (p target : Offset) (node : CanvasNode).

(** ** Transform engine *)

(** What [createMatrix] leaves in the two arrays. *)
Lemma createMatrix_matrix x y s rotate c :
  matrix (createMatrix x y s rotate c) =
    [# cos rotate * s; sin rotate * s; - (sin rotate * s); cos rotate * s; x; y].
Proof.
  unfold createMatrix; cbn [matrix set_invMatrix set_matrix].
  generalize (matrix c); intros m. inv_vec m; intros. reflexivity.
Qed.

(** In exact arithmetic the cross term is the square of the scale, for
    every rotation. *)
Lemma cross_createMatrix x y s rotate c :
  cross (createMatrix x y s rotate c) = s * s.
Proof.
  unfold cross. rewrite createMatrix_matrix. cbn.
  pose proof (sin2_cos2 rotate) as E. unfold Rsqr in E.
  replace (s * s) with (s * s * (sin rotate * sin rotate + cos rotate * cos rotate))
    by (rewrite E; ring).
  ring.
Qed.

(** In exact arithmetic, the inverse entries with [cross] replaced by the
    square of the scale. *)
Lemma createMatrix_invMatrix x y s rotate c :
  invMatrix (createMatrix x y s rotate c) =
    [# cos rotate * s / (s * s); - (sin rotate * s) / (s * s);
       - - (sin rotate * s) / (s * s); cos rotate * s / (s * s)].
Proof.
  pose proof (cross_createMatrix x y s rotate c) as E.
  unfold cross in E. rewrite createMatrix_matrix in E. cbn in E.
  unfold createMatrix; cbn [invMatrix set_invMatrix set_matrix].
  generalize (matrix c) (invMatrix c); intros m im. inv_vec m; inv_vec im; intros.
  cbn. rewrite E. reflexivity.
Qed.

(** The entries of the inverse are the adjugate entries over [cross]:
    [createMatrix] reads them off the forward matrix it has just written. *)
Lemma createMatrix_divides_by_cross x y s rotate c :
  invMatrix (createMatrix x y s rotate c) =
    adjugateOverCross (createMatrix x y s rotate c).
Proof.
  unfold adjugateOverCross, cross, createMatrix.
  cbn [matrix invMatrix set_invMatrix set_matrix].
  generalize (matrix c) (invMatrix c); intros m im.
  inv_vec m; inv_vec im; intros. reflexivity.
Qed.



(** ** Hit testing *)

Lemma getSelection_loop localOffset (l : list CanvasNode) (items : list ID) :
  foldl
    (fun items node =>
       if decide (overlaps localOffset node)
       then items ++ [CanvasNode.id node]
       else items)
    items l
  = items ++ (CanvasNode.id <$> filter (overlaps localOffset) l).
Proof.
  revert items. induction l as [|n l IH]; intros items; cbn [foldl].
  - cbn. by rewrite app_nil_r.
  - rewrite IH, filter_cons. destruct (decide (overlaps localOffset n)).
    + rewrite fmap_cons, <- app_assoc. reflexivity.
    + reflexivity.
Qed.

Lemma getSelection_filter target c :
  getSelection target c =
    CanvasNode.id <$>
      filter (overlaps (toWorld (Offset.x target) (Offset.y target) c))
             (nodes (store c)).
Proof. unfold getSelection. by rewrite getSelection_loop. Qed.

(** C2.  [getSelection] returns, in the store's iteration order, exactly
    the ids of the nodes whose rectangle contains the world-space image of
    the point, the four edges included: x in [[node.x, node.x + width]] and
    y in [[node.y, node.y + height]].  So an id is returned if and only if
    it is the id of a node of the store that contains the point in this
    sense. *)
Theorem getSelection_spec target c :
  getSelection target c =
    CanvasNode.id <$>
      filter
        (fun node =>
           CanvasNode.x node
             <= Offset.x (toWorld (Offset.x target) (Offset.y target) c)
             <= CanvasNode.x node + CanvasNode.width node /\
           CanvasNode.y node
             <= Offset.y (toWorld (Offset.x target) (Offset.y target) c)
             <= CanvasNode.y node + CanvasNode.height node)
        (nodes (store c)) /\
  forall i : ID,
    i ∈ getSelection target c <->
    exists node,
      node ∈ nodes (store c) /\ CanvasNode.id node = i /\
      CanvasNode.x node
        <= Offset.x (toWorld (Offset.x target) (Offset.y target) c)
        <= CanvasNode.x node + CanvasNode.width node /\
      CanvasNode.y node
        <= Offset.y (toWorld (Offset.x target) (Offset.y target) c)
        <= CanvasNode.y node + CanvasNode.height node.
Proof.
  split.
  - rewrite getSelection_filter. f_equal.
    apply list_filter_iff. intros n. unfold overlaps. lra.
  - intros i. rewrite getSelection_filter, list_elem_of_fmap. split.
    + intros (node & -> & Hin). apply list_elem_of_filter in Hin as [Hhit Hin].
      exists node. unfold overlaps in Hhit. repeat split; auto; lra.
    + intros (node & Hin & <- & Hx & Hy). exists node. split; [reflexivity|].
      apply list_elem_of_filter. split; [|exact Hin]. unfold overlaps. lra.
Qed.

(** ** Interaction handlers *)

(** C4.  A wheel event with ctrl held lowers the scale by [deltaY * 0.01]
    and leaves the offset alone; without ctrl it lowers the offset by
    [(deltaX * 2, deltaY * 2)] and leaves the scale alone; either way the
    action is [NONE] when the handler returns. *)
Theorem onWheel_spec (e : WheelEvent) c :
  (WheelEvent.ctrlKey e = true ->
     scale (onWheel e c) = scale c - WheelEvent.deltaY e * 0.01 /\
     offset (onWheel e c) = offset c) /\
  (WheelEvent.ctrlKey e = false ->
     offset (onWheel e c) =
       Offset.mk (Offset.x (offset c) - WheelEvent.deltaX e * 2)
                 (Offset.y (offset c) - WheelEvent.deltaY e * 2) /\
     scale (onWheel e c) = scale c) /\
  action (onWheel e c) = NONE.
Proof.
  unfold onWheel. destruct (WheelEvent.ctrlKey e); cbn; repeat split; congruence.
Qed.

(** C9.  A release clears the last offset and sets the action to [NONE],
    whatever the action was; the selection is left as it is. *)
Theorem onMouseUp_spec (e : MouseEvent) c :
  lastOffset (onMouseUp e c) = None /\
  action (onMouseUp e c) = NONE /\
  selected (onMouseUp e c) = selected c.
Proof. unfold onMouseUp. cbn. auto. Qed.

Lemma dragging_iff c :
  action c = MOVE /\ (length (selected c) > 0)%nat <->
  action c = MOVE /\ selected c <> [].
Proof.
  destruct (selected c); cbn; split; intros [? ?]; split; auto; try lia; congruence.
Qed.

Lemma last_Some_nonempty {A} (l : list A) (a : A) : last l = Some a -> l <> [].
Proof. destruct l; [discriminate | congruence]. Qed.


(** When the last selected id does not resolve, the guard [if (node)]
    skips the move and only the last offset is replaced. *)
Lemma onMouseMove_drag_unresolved (e : MouseEvent) c (origin : Offset) (i : ID) :
  action c = MOVE ->
  last (selected c) = Some i ->
  retrieveNode (store c) i = None ->
  lastOffset c = Some origin ->
  onMouseMove e c =
    Normal
      (set_lastOffset
         (Some (Offset.mk (MouseEvent.offsetX e) (MouseEvent.offsetY e))) c).
Proof.
  intros Hact Hlast Hnode Horigin. unfold onMouseMove.
  rewrite decide_True
    by (apply dragging_iff; split; [exact Hact | exact (last_Some_nonempty _ _ Hlast)]).
  rewrite Horigin. unfold selectedNode. rewrite Hlast, Hnode.
  reflexivity.
Qed.

Lemma getSelection_frame target c c' :
  store c' = store c -> matrix c' = matrix c -> invMatrix c' = invMatrix c ->
  getSelection target c' = getSelection target c.
Proof.
  intros Hs Hm Him. unfold getSelection, toWorld. by rewrite Hs, Hm, Him.
Qed.

(** A pointer move that does not drag runs the hover check and returns. *)
Lemma onMouseMove_hover (e : MouseEvent) c :
  ~ (action c = MOVE /\ selected c <> []) ->
  onMouseMove e c =
    Normal (checkHover (Offset.mk (MouseEvent.offsetX e) (MouseEvent.offsetY e)) c).
Proof.
  intros Hno. unfold onMouseMove.
  rewrite decide_False by (rewrite dragging_iff; exact Hno). reflexivity.
Qed.

Lemma checkHover_frame (point : Offset) c :
  hovered (checkHover point c) = getSelection point c /\
  selected (checkHover point c) = selected c /\
  store (checkHover point c) = store c /\
  lastOffset (checkHover point c) = lastOffset c /\
  scale (checkHover point c) = scale c /\
  offset (checkHover point c) = offset c /\
  action (checkHover point c) = action c /\
  updates (checkHover point c) = updates c.
Proof.
  unfold checkHover.
  match goal with |- context [hoveredNode ?x] => destruct (hoveredNode x) end;
    cbn; repeat split; reflexivity.
Qed.

(** C8, as the code has it.  A pointer move while the action is [MOVE] and
    the selection is empty does not throw and runs the hover check: the
    hover set becomes the hit-test result at the point; the selection, the
    store with its node positions, the last offset, the scale, the offset
    and the action are unchanged. *)
Theorem onMouseMove_empty_selection (e : MouseEvent) c :
  action c = MOVE ->
  selected c = [] ->
  exists c',
    onMouseMove e c = Normal c' /\
    hovered c' =
      getSelection (Offset.mk (MouseEvent.offsetX e) (MouseEvent.offsetY e)) c /\
    selected c' = selected c /\
    store c' = store c /\
    lastOffset c' = lastOffset c /\
    scale c' = scale c /\
    offset c' = offset c /\
    action c' = action c.
Proof.
  intros _ Hsel. eexists. split.
  - apply onMouseMove_hover. intros [_ Hne]. contradiction.
  - pose proof (checkHover_frame
      (Offset.mk (MouseEvent.offsetX e) (MouseEvent.offsetY e)) c) as Hf.
    tauto.
Qed.

(** C7, as the code has it.  [onUpdate] is called once by every wheel
    event, twice by every press (by [clear] and at the end of the handler)
    and once by every [clear]; a pointer move never calls it, whether it
    drags a node, hovers or throws. *)
Theorem onUpdate_calls (w : WheelEvent) (e : MouseEvent) c :
  updates (onWheel w c) = S (updates c) /\
  updates (onMouseDown e c) = S (S (updates c)) /\
  updates (clear c) = S (updates c) /\
  updates (outcome (onMouseMove e c)) = updates c.
Proof.
  split; [|split; [|split]].
  - unfold onWheel. destruct (WheelEvent.ctrlKey w); reflexivity.
  - reflexivity.
  - reflexivity.
  - unfold onMouseMove. destruct (decide _) as [Hd|Hd].
    + destruct (lastOffset c); [|reflexivity].
      destruct (selectedNode c); reflexivity.
    + cbn [outcome]. apply checkHover_frame.
Qed.

(** C10.  [moveNode] changes the [x] and [y] of the node it is given and
    nothing else of it; the store is changed by the one call
    [updateNode(node)], which by the store contract leaves every node with
    another id as it was; the scale, the offset, the selection, the hover
    set and the two matrices of the canvas are unchanged. *)
Theorem moveNode_frame `{!GraphStoreFrame Store} node (delta : Offset) c :
  CanvasNode.x (moveNode node delta c).1
    = CanvasNode.x node + Offset.x delta / scale c /\
  CanvasNode.y (moveNode node delta c).1
    = CanvasNode.y node + Offset.y delta / scale c /\
  CanvasNode.id (moveNode node delta c).1 = CanvasNode.id node /\
  CanvasNode.width (moveNode node delta c).1 = CanvasNode.width node /\
  CanvasNode.height (moveNode node delta c).1 = CanvasNode.height node /\
  CanvasNode.name (moveNode node delta c).1 = CanvasNode.name node /\
  CanvasNode.backgroundColor (moveNode node delta c).1
    = CanvasNode.backgroundColor node /\
  store (moveNode node delta c).2
    = updateNode (store c) (moveNode node delta c).1 /\
  Forall2 (fun n n' => CanvasNode.id n <> CanvasNode.id node -> n' = n)
    (nodes (store c)) (nodes (store (moveNode node delta c).2)) /\
  scale (moveNode node delta c).2 = scale c /\
  offset (moveNode node delta c).2 = offset c /\
  selected (moveNode node delta c).2 = selected c /\
  hovered (moveNode node delta c).2 = hovered c /\
  matrix (moveNode node delta c).2 = matrix c /\
  invMatrix (moveNode node delta c).2 = invMatrix c.
Proof.
  unfold moveNode; cbn.
  repeat match goal with |- _ /\ _ => split end; try reflexivity.
  eapply Forall2_impl; [apply updateNode_nodes|].
  cbn. intros n n' [->|[Hid _]] Hne; [reflexivity | contradiction].
Qed.

(** ** Scale and determinant *)

(** C5, as the code has it.  The scale is not clamped: a wheel event with
    ctrl held replaces it by [scale - deltaY * 0.01] whatever the sign of
    the result, so it is strictly positive afterwards exactly when
    [deltaY * 0.01 < scale]; the cross term that [createMatrix(x, y, s, 0)]
    divides by is [s * s], and it is zero at scale zero. *)
Theorem scale_not_clamped (e : WheelEvent) c (x y s : number) :
  scale (onWheel e c) =
    (if WheelEvent.ctrlKey e then scale c - WheelEvent.deltaY e * 0.01 else scale c) /\
  (0 < scale (onWheel e c) <->
     if WheelEvent.ctrlKey e then WheelEvent.deltaY e * 0.01 < scale c
     else 0 < scale c) /\
  cross (createMatrix x y s 0 c) = s * s /\
  cross (createMatrix x y 0 0 c) = 0.
Proof.
  rewrite !cross_createMatrix. unfold onWheel.
  destruct (WheelEvent.ctrlKey e); cbn.
  - split; [reflexivity|]. split; [lra|]. split; [reflexivity|]. lra.
  - split; [reflexivity|]. split; [lra|]. split; [reflexivity|]. lra.
Qed.

(** ** Render step *)

Lemma renderEdge_resolved (edge : NodeEdge) c startNode endNode :
  retrieveNode (store c) (NodeEdge.startNode edge) = Some startNode ->
  retrieveNode (store c) (NodeEdge.endNode edge) = Some endNode ->
  renderEdge edge c = Normal (set_ctx (ctx c ++ edgeDrawing startNode endNode) c).
Proof.
  intros Hs He. unfold renderEdge. cbn [store draw set_ctx].
  rewrite Hs, He. f_equal. unfold edgeDrawing. canvas_fields.
  cbv beta iota delta [Rect.x Rect.y Rect.width Rect.height].
  repeat rewrite <- app_assoc. reflexivity.
Qed.

Lemma renderEdge_unresolved (edge : NodeEdge) c :
  ~ resolves (store c) edge ->
  renderEdge edge c = TypeError (draw Save c).
Proof.
  intros Hno. unfold renderEdge. cbn [store draw set_ctx].
  destruct (retrieveNode (store c) (NodeEdge.startNode edge)) eqn:Hs; [|reflexivity].
  destruct (retrieveNode (store c) (NodeEdge.endNode edge)) eqn:He; [|reflexivity].
  exfalso. apply Hno. split; [rewrite Hs | rewrite He]; eauto.
Qed.

Lemma renderEdges_loop_thrown (l : list NodeEdge) c :
  foldl (fun r edge => bind r (renderEdge edge)) (TypeError c) l = TypeError c.
Proof. induction l as [|edge l IH]; cbn; [reflexivity | exact IH]. Qed.

Lemma renderEdges_loop_normal (l : list NodeEdge) c :
  (exists c', foldl (fun r edge => bind r (renderEdge edge)) (Normal c) l = Normal c')
  <-> Forall (resolves (store c)) l.
Proof.
  revert c. induction l as [|edge l IH]; intros c; cbn [foldl bind].
  - split; [constructor | eauto].
  - destruct (decide (resolves (store c) edge)) as [Hyes|Hno].
    + destruct Hyes as [[s Hs] [t Ht]].
      rewrite (renderEdge_resolved _ _ _ _ Hs Ht), IH. cbn [store set_ctx].
      split.
      * intros Hl. constructor; [split; eauto | exact Hl].
      * intros Hl. by inversion Hl.
    + rewrite (renderEdge_unresolved _ _ Hno), renderEdges_loop_thrown.
      split.
      * intros [c' Hc']. discriminate.
      * intros Hl. inversion Hl. contradiction.
Qed.

Lemma renderEdges_normal_iff c :
  (exists c', renderEdges c = Normal c') <->
  Forall (resolves (store c)) (edges (store c)).
Proof. apply renderEdges_loop_normal. Qed.

(** A frame is painted to the end exactly when every edge resolves. *)
Lemma paint_normal_iff c :
  (exists c', paint c = Normal c') <->
  Forall (resolves (store c)) (edges (store c)).
Proof.
  unfold paint.
  match goal with |- context [renderEdges ?x] => set (c1 := x) end.
  change (store c) with (store c1).
  rewrite <- renderEdges_normal_iff.
  destruct (renderEdges c1) as [c2|c2]; cbn [bind]; split.
  - eauto.
  - eauto.
  - intros [c' Hc']. discriminate.
  - intros [c' Hc']. discriminate.
Qed.

(** C6, as the code has it.  An edge whose two ids resolve is drawn, as
    the curve between the centres of its nodes.  An edge with an id that
    does not resolve is not skipped: [renderEdge] throws on the first read
    of the absent node, after [ctx.save()] and before any stroke; so
    [renderEdges], and with it the frame painted by [paint], completes
    exactly when every edge of the store resolves. *)
Theorem renderEdge_spec (edge : NodeEdge) c :
  (forall startNode endNode,
     retrieveNode (store c) (NodeEdge.startNode edge) = Some startNode ->
     retrieveNode (store c) (NodeEdge.endNode edge) = Some endNode ->
     renderEdge edge c =
       Normal (set_ctx (ctx c ++ edgeDrawing startNode endNode) c)) /\
  (retrieveNode (store c) (NodeEdge.startNode edge) = None \/
   retrieveNode (store c) (NodeEdge.endNode edge) = None ->
     renderEdge edge c = TypeError (set_ctx (ctx c ++ [Save]) c)) /\
  ((exists c', renderEdges c = Normal c') <->
     Forall (resolves (store c)) (edges (store c))) /\
  ((exists c', paint c = Normal c') <->
     Forall (resolves (store c)) (edges (store c))).
Proof.
  split; [|split; [|split]].
  - intros s t. apply renderEdge_resolved.
  - intros Hnone. apply renderEdge_unresolved. intros [[s Hs] [t Ht]].
    destruct Hnone as [Hn|Hn]; congruence.
  - apply renderEdges_normal_iff.
  - apply paint_normal_iff.
Qed.

(** ** The press handler and the primary selection *)

(** X1.  A press records the point as the last offset, enters [MOVE],
    replaces the selection by the hits at the point and signals the host
    twice; the store, the transform state and the hover set stay. *)
Theorem onMouseDown_spec (e : MouseEvent) c :
  lastOffset (onMouseDown e c)
    = Some (Offset.mk (MouseEvent.offsetX e) (MouseEvent.offsetY e)) /\
  action (onMouseDown e c) = MOVE /\
  selected (onMouseDown e c)
    = getSelection (Offset.mk (MouseEvent.offsetX e) (MouseEvent.offsetY e)) c /\
  updates (onMouseDown e c) = S (S (updates c)) /\
  store (onMouseDown e c) = store c /\
  hovered (onMouseDown e c) = hovered c /\
  offset (onMouseDown e c) = offset c /\
  scale (onMouseDown e c) = scale c /\
  matrix (onMouseDown e c) = matrix c /\
  invMatrix (onMouseDown e c) = invMatrix c.
Proof.
  unfold onMouseDown, clear, onUpdate.
  repeat match goal with |- _ /\ _ => split end; reflexivity.
Qed.

(** X2.  The primary selection after a press is the last node, in store
    order, that the point hits. *)
Theorem onMouseDown_primary (e : MouseEvent) c (l1 l2 : list CanvasNode) node :
  nodes (store c) = l1 ++ node :: l2 ->
  overlaps (toWorld (MouseEvent.offsetX e) (MouseEvent.offsetY e) c) node ->
  Forall
    (fun n => ~ overlaps (toWorld (MouseEvent.offsetX e) (MouseEvent.offsetY e) c) n)
    l2 ->
  last (selected (onMouseDown e c)) = Some (CanvasNode.id node).
Proof.
  intros Hnodes Hhit Hrest.
  change (selected (onMouseDown e c))
    with (getSelection (Offset.mk (MouseEvent.offsetX e) (MouseEvent.offsetY e)) c).
  rewrite getSelection_filter. cbn [Offset.x Offset.y]. rewrite Hnodes.
  rewrite filter_app, filter_cons_True by exact Hhit.
  replace (filter _ l2) with (@nil CanvasNode).
  - by rewrite fmap_app, fmap_cons, fmap_nil, last_snoc.
  - clear Hnodes. symmetry. induction Hrest as [|n l Hn _ IH]; [reflexivity|].
    rewrite filter_cons_False by exact Hn. exact IH.
Qed.

(** [checkHover] in one step: the hover set becomes the hits at the point
    and the cursor tells whether the last of them resolves. *)
Lemma checkHover_eq (point : Offset) c :
  checkHover point c =
    set_cursor
      (match hoveredNode (set_hovered (getSelection point c) c) with
       | Some _ => "pointer"
       | None => "default"
       end)
      (set_hovered (getSelection point c) c).
Proof.
  unfold checkHover.
  change (hoveredNode
            (set_hovered
               (hovered (set_hovered [] c) ++ getSelection point (set_hovered [] c))
               (set_hovered [] c)))
    with (hoveredNode (set_hovered (getSelection point c) c)).
  destruct (hoveredNode (set_hovered (getSelection point c) c)); reflexivity.
Qed.

(** X3.  Checking the hover twice at one point is the same as checking
    once. *)
Theorem checkHover_idempotent (point : Offset) c :
  checkHover point (checkHover point c) = checkHover point c.
Proof.
  rewrite (checkHover_eq point (checkHover point c)).
  assert (getSelection point (checkHover point c) = getSelection point c) as ->.
  { rewrite checkHover_eq. reflexivity. }
  rewrite checkHover_eq. reflexivity.
Qed.

(** ** The render step only draws *)

Lemma set_ctx_ctx c : set_ctx (ctx c) c = c.
Proof. destruct c; reflexivity. Qed.

Lemma ctx_set_ctx (l : list DrawCmd) c : ctx (set_ctx l c) = l.
Proof. reflexivity. Qed.

Lemma set_ctx_set_ctx (l l' : list DrawCmd) c :
  set_ctx l' (set_ctx l c) = set_ctx l' c.
Proof. reflexivity. Qed.

Lemma draw_set_ctx (cmd : DrawCmd) (l : list DrawCmd) c :
  draw cmd (set_ctx l c) = set_ctx (l ++ [cmd]) c.
Proof. reflexivity. Qed.

Lemma createMatrix_set_ctx (x y s rotate : number) (l : list DrawCmd) c :
  createMatrix x y s rotate (set_ctx l c) = set_ctx l (createMatrix x y s rotate c).
Proof. reflexivity. Qed.

(** A canvas that differs from [c] by commands appended to the context. *)
Lemma drawn_refl c : exists l, c = set_ctx (ctx c ++ l) c.
Proof. exists []. by rewrite app_nil_r, set_ctx_ctx. Qed.

Lemma drawn_trans c c1 c2 :
  (exists l, c1 = set_ctx (ctx c ++ l) c) ->
  (exists l, c2 = set_ctx (ctx c1 ++ l) c1) ->
  exists l, c2 = set_ctx (ctx c ++ l) c.
Proof.
  intros [l1 ->] [l2 ->]. exists (l1 ++ l2).
  by rewrite ctx_set_ctx, set_ctx_set_ctx, app_assoc.
Qed.

Lemma renderNode_drawn node c :
  exists l, renderNode node c = set_ctx (ctx c ++ l) c.
Proof.
  eexists. unfold renderNode. canvas_fields.
  repeat rewrite <- app_assoc. reflexivity.
Qed.

Lemma renderNodes_loop (l : list CanvasNode) c (l0 : list DrawCmd) :
  exists l1,
    foldl (fun c node => renderNode node c) (set_ctx (ctx c ++ l0) c) l
      = set_ctx (ctx c ++ l1) c.
Proof.
  revert l0. induction l as [|n l IH]; intros l0; cbn [foldl]; [eauto|].
  destruct (renderNode_drawn n (set_ctx (ctx c ++ l0) c)) as [l1 ->].
  rewrite ctx_set_ctx, set_ctx_set_ctx, <- app_assoc. apply IH.
Qed.

Lemma renderNodes_drawn c : exists l, renderNodes c = set_ctx (ctx c ++ l) c.
Proof.
  unfold renderNodes.
  destruct (renderNodes_loop (nodes (store c)) c []) as [l Hl].
  rewrite app_nil_r, set_ctx_ctx in Hl. eauto.
Qed.

Lemma renderEdge_drawn (edge : NodeEdge) c :
  exists l, outcome (renderEdge edge c) = set_ctx (ctx c ++ l) c.
Proof.
  destruct (decide (resolves (store c) edge)) as [[[s Hs] [t Ht]]|Hno].
  - rewrite (renderEdge_resolved _ _ _ _ Hs Ht). eauto.
  - rewrite (renderEdge_unresolved _ _ Hno). eexists. reflexivity.
Qed.

Lemma renderEdges_drawn c :
  exists l, outcome (renderEdges c) = set_ctx (ctx c ++ l) c.
Proof.
  unfold renderEdges. generalize (edges (store c)). intros l.
  assert (exists l0, outcome (Normal c) = set_ctx (ctx c ++ l0) c) as Hstart
    by apply drawn_refl.
  revert Hstart. generalize (Normal c). intros r. revert r.
  induction l as [|edge l IH]; intros r Hr; cbn [foldl]; [exact Hr|].
  apply IH. destruct r as [c1|c1]; cbn [bind outcome] in *; [|exact Hr].
  eapply drawn_trans; [exact Hr | apply renderEdge_drawn].
Qed.

(** A frame, completed or thrown, appends drawing commands to the context
    and recomputes the two matrices from the current offset and scale with
    rotation 0; it changes nothing else. *)
Lemma paint_drawn c :
  exists l,
    outcome (paint c) =
      set_ctx (ctx c ++ l)
        (createMatrix (Offset.x (offset c)) (Offset.y (offset c)) (scale c) 0 c).
Proof.
  unfold paint. cbv zeta.
  match goal with |- context [renderBackground ?x] =>
    assert (exists l, renderBackground x = set_ctx (ctx c ++ l) c) as [l0 H0]
  end.
  { eexists. unfold renderBackground. canvas_fields.
    repeat rewrite <- app_assoc. reflexivity. }
  rewrite H0.
  match goal with |- context [renderEdges ?x] => set (c1 := x) end.
  assert (exists l, c1 = set_ctx (ctx c ++ l)
            (createMatrix (Offset.x (offset c)) (Offset.y (offset c)) (scale c) 0 c))
    as [l1 H1].
  { eexists. subst c1.
    rewrite createMatrix_set_ctx, draw_set_ctx, <- app_assoc. reflexivity. }
  destruct (renderEdges_drawn c1) as [l2 H2].
  destruct (renderEdges c1) as [c2|c2]; cbn [bind outcome] in *.
  - destruct (renderNodes_drawn c2) as [l3 ->]. subst c2. rewrite H1.
    exists ((l1 ++ l2) ++ l3).
    by rewrite !ctx_set_ctx, !set_ctx_set_ctx, !app_assoc.
  - subst c2. rewrite H1. exists (l1 ++ l2).
    by rewrite !ctx_set_ctx, !set_ctx_set_ctx, !app_assoc.
Qed.

(** ** Reachable canvases *)

Lemma step_recorded c c' : step c c' -> recorded c -> recorded c'.
Proof.
  unfold recorded.
  intros Hstep Hc.
  destruct Hstep as [e c|e c|e c|e c c' Hmove|c|node c|parsed c|sz c|c
                    |x y s rotate c|node delta c|point c].
  - intros Hact. discriminate Hact.
  - intros _. cbn. eauto.
  - intros Hact. discriminate Hact.
  - unfold onMouseMove in Hmove. destruct (decide _) as [Hd|Hd].
    + destruct (lastOffset c); [|discriminate].
      injection Hmove as <-. intros _. cbn. eauto.
    + injection Hmove as <-.
      destruct (checkHover_frame
        (Offset.mk (MouseEvent.offsetX e) (MouseEvent.offsetY e)) c)
        as (_ & _ & _ & -> & _ & _ & -> & _).
      exact Hc.
  - exact Hc.
  - exact Hc.
  - exact Hc.
  - exact Hc.
  - destruct (paint_drawn c) as [l ->]. exact Hc.
  - exact Hc.
  - exact Hc.
  - destruct (checkHover_frame point c) as (_ & _ & _ & -> & _ & _ & -> & _).
    exact Hc.
Qed.

Lemma reachable_recorded c : reachable c -> recorded c.
Proof.
  intros (sz & s & Hsteps).
  apply (rtc_ind_r (R := step) (fun c => recorded c) (initial sz s));
    [| |exact Hsteps].
  - intros Hact. discriminate Hact.
  - intros c1 c2 _ Hstep Hrec. exact (step_recorded c1 c2 Hstep Hrec).
Qed.

(** X5.  On a canvas reached from a fresh one by calls of the public
    methods, a pointer move never throws: while the action is [MOVE] the
    last offset is recorded. *)
Theorem onMouseMove_reachable (e : MouseEvent) c :
  reachable c -> exists c', onMouseMove e c = Normal c'.
Proof.
  intros Hreach. pose proof (reachable_recorded c Hreach) as Hrec.
  unfold onMouseMove. destruct (decide _) as [[Hact _]|_]; [|eauto].
  destruct (Hrec Hact) as [origin ->]. eauto.
Qed.

End Properties.

(** * Further properties of the code *)

Section MoreProperties.
Context {Store : Type} `{GraphStore Store}.
Implicit Types (c : Canvas Store) (p target : Offset) (node : CanvasNode).

(** ** What a frame draws *)

Lemma outlineColour_set_ctx (l : list DrawCmd) c node :
  outlineColour (set_ctx l c) node = outlineColour c node.
Proof. reflexivity. Qed.

Lemma renderNode_commands node c :
  renderNode node c =
    set_ctx (ctx c ++ nodeDrawing node
               (if match selectedNode c with
                   | Some n => bool_decide (CanvasNode.id n = CanvasNode.id node)
                   | None => false
                   end
                then "red"
                else if match hoveredNode c with
                        | Some n => bool_decide (CanvasNode.id n = CanvasNode.id node)
                        | None => false
                        end
                     then "blue" else "black")) c.
Proof.
  unfold renderNode, nodeDrawing. canvas_fields.
  repeat rewrite <- app_assoc. reflexivity.
Qed.

Lemma outlineColour_eq c node :
  (if match selectedNode c with
      | Some n => bool_decide (CanvasNode.id n = CanvasNode.id node)
      | None => false
      end
   then "red"
   else if match hoveredNode c with
           | Some n => bool_decide (CanvasNode.id n = CanvasNode.id node)
           | None => false
           end
        then "blue" else "black") = outlineColour c node.
Proof.
  unfold outlineColour.
  destruct (decide (primarySelected c node)) as [(n & -> & Hid)|Hns].
  - by rewrite bool_decide_eq_true_2.
  - assert (match selectedNode c with
            | Some n => bool_decide (CanvasNode.id n = CanvasNode.id node)
            | None => false
            end = false) as ->.
    { destruct (selectedNode c) as [n|] eqn:Hsel; [|reflexivity].
      apply bool_decide_eq_false_2. intros Hid. apply Hns. exists n. auto. }
    destruct (decide (primaryHovered c node)) as [(n & -> & Hid)|Hnh].
    + by rewrite bool_decide_eq_true_2.
    + destruct (hoveredNode c) as [n|] eqn:Hhov; [|reflexivity].
      rewrite bool_decide_eq_false_2; [reflexivity|].
      intros Hid. apply Hnh. exists n. auto.
Qed.

Lemma renderNode_outline node c :
  renderNode node c = set_ctx (ctx c ++ nodeDrawing node (outlineColour c node)) c.
Proof. by rewrite renderNode_commands, outlineColour_eq. Qed.

(** X6.  [renderNode] appends the drawing of the node, label, fill and
    outline, to the context and changes nothing else.  The outline is red
    exactly for the primary selected node, blue exactly for the primary
    hovered node that is not the primary selected one, and black
    otherwise: selection takes precedence over hover, and a selected id
    that is not the last of the selection is not highlighted. *)
Theorem renderNode_spec node c :
  exists colour,
    renderNode node c = set_ctx (ctx c ++ nodeDrawing node colour) c /\
    (colour = "red" <-> primarySelected c node) /\
    (colour = "blue" <-> ~ primarySelected c node /\ primaryHovered c node) /\
    (colour = "black" <-> ~ primarySelected c node /\ ~ primaryHovered c node).
Proof.
  exists (outlineColour c node). split; [apply renderNode_outline|].
  unfold outlineColour.
  destruct (decide (primarySelected c node)) as [Hs|Hs];
    [|destruct (decide (primaryHovered c node)) as [Hh|Hh]];
    repeat split; try discriminate; try tauto.
Qed.

Lemma renderNodes_loop_commands (l : list CanvasNode) c (l0 : list DrawCmd) :
  foldl (fun c node => renderNode node c) (set_ctx (ctx c ++ l0) c) l
    = set_ctx
        (ctx c ++ l0 ++ (l ≫= fun node => nodeDrawing node (outlineColour c node)))
        c.
Proof.
  revert l0. induction l as [|n l IH]; intros l0; cbn [foldl].
  - cbn. by rewrite app_nil_r.
  - rewrite renderNode_outline, outlineColour_set_ctx.
    rewrite ctx_set_ctx, set_ctx_set_ctx, <- app_assoc, IH, bind_cons.
    by rewrite <- !app_assoc.
Qed.

Lemma renderNodes_commands c :
  renderNodes c =
    set_ctx
      (ctx c ++ (nodes (store c) ≫= fun node => nodeDrawing node (outlineColour c node)))
      c.
Proof.
  unfold renderNodes.
  pose proof (renderNodes_loop_commands (nodes (store c)) c []) as Hl.
  rewrite app_nil_r, set_ctx_ctx in Hl. exact Hl.
Qed.

Lemma renderEdges_loop_commands (l : list NodeEdge) c (l0 : list DrawCmd) :
  outcome
    (foldl (fun r edge => bind r (renderEdge edge)) (Normal (set_ctx (ctx c ++ l0) c)) l)
    = set_ctx (ctx c ++ l0 ++ edgesDrawing (store c) l) c.
Proof.
  revert l0. induction l as [|edge l IH]; intros l0; cbn [foldl bind edgesDrawing].
  - cbn. by rewrite app_nil_r.
  - destruct (retrieveNode (store c) (NodeEdge.startNode edge)) as [a|] eqn:Ha;
      [destruct (retrieveNode (store c) (NodeEdge.endNode edge)) as [b|] eqn:Hb|].
    + rewrite (renderEdge_resolved edge (set_ctx (ctx c ++ l0) c) a b Ha Hb).
      rewrite ctx_set_ctx, set_ctx_set_ctx, <- app_assoc, IH.
      by rewrite <- !app_assoc.
    + rewrite (renderEdge_unresolved edge (set_ctx (ctx c ++ l0) c)).
      * rewrite renderEdges_loop_thrown. cbn [outcome].
        by rewrite draw_set_ctx, <- app_assoc.
      * intros [_ [b Hb']]. cbn [store set_ctx] in Hb'. congruence.
    + rewrite (renderEdge_unresolved edge (set_ctx (ctx c ++ l0) c)).
      * rewrite renderEdges_loop_thrown. cbn [outcome].
        by rewrite draw_set_ctx, <- app_assoc.
      * intros [[a Ha'] _]. cbn [store set_ctx] in Ha'. congruence.
Qed.

Lemma matrix_set_ctx (l : list DrawCmd) c : matrix (set_ctx l c) = matrix c.
Proof. reflexivity. Qed.

Lemma createMatrix_unrotated (x y s : number) c :
  matrix (createMatrix x y s 0 c) = [# s; 0; 0; s; x; y] /\
  invMatrix (createMatrix x y s 0 c) = [# s / (s * s); 0; 0; s / (s * s)].
Proof.
  rewrite createMatrix_matrix, createMatrix_invMatrix, cos_0, sin_0.
  rewrite Rmult_1_l, Rmult_0_l, Ropp_0.
  replace (0 / (s * s)) with 0 by (unfold Rdiv; ring).
  replace (- 0 / (s * s)) with 0 by (unfold Rdiv; ring).
  split; reflexivity.
Qed.

(** The whole effect of [paint], completed or thrown. *)
Lemma paint_commands c :
  outcome (paint c) =
    set_ctx
      (ctx c ++ frameStart c ++ edgesDrawing (store c) (edges (store c)) ++
       match paint c with
       | Normal _ =>
           nodes (store c) ≫= fun node => nodeDrawing node (outlineColour c node)
       | TypeError _ => []
       end)
      (createMatrix (Offset.x (offset c)) (Offset.y (offset c)) (scale c) 0 c).
Proof.
  unfold paint. cbv zeta.
  match goal with |- context [renderBackground ?x] =>
    assert (renderBackground x =
            set_ctx (ctx c ++ [ SetTransform 1 0 0 1 0 0;
                                ClearRect 0 0 (Size.width (size c)) (Size.height (size c));
                                Save; FillStyle "whitesmoke";
                                FillRect 0 0 (Size.width (size c)) (Size.height (size c));
                                Restore ]) c) as H0
  end.
  { unfold renderBackground. canvas_fields.
    repeat rewrite <- app_assoc. reflexivity. }
  rewrite H0. clear H0.
  rewrite createMatrix_set_ctx, matrix_set_ctx, draw_set_ctx, <- app_assoc.
  change (offset (set_ctx _ c)) with (offset c).
  change (scale (set_ctx _ c)) with (scale c).
  destruct (createMatrix_unrotated
              (Offset.x (offset c)) (Offset.y (offset c)) (scale c) c) as [Hm _].
  match goal with |- context [SetTransform (?m !!! 0%fin) ?m1 ?m2 ?m3 ?m4 ?m5] =>
    replace (SetTransform (m !!! 0%fin) m1 m2 m3 m4 m5)
      with (SetTransform (scale c) 0 0 (scale c)
              (Offset.x (offset c)) (Offset.y (offset c)))
      by (rewrite Hm; reflexivity)
  end.
  set (cm := createMatrix _ _ _ _ c).
  change ([ SetTransform 1 0 0 1 0 0;
            ClearRect 0 0 (Size.width (size c)) (Size.height (size c));
            Save; FillStyle "whitesmoke";
            FillRect 0 0 (Size.width (size c)) (Size.height (size c));
            Restore ] ++
          [ SetTransform (scale c) 0 0 (scale c)
              (Offset.x (offset c)) (Offset.y (offset c)) ])
    with (frameStart c).
  change (ctx c) with (ctx cm).
  pose proof (renderEdges_loop_commands (edges (store cm)) cm (frameStart c)) as He.
  change (foldl _ _ (edges (store cm)))
    with (renderEdges (set_ctx (ctx cm ++ frameStart c) cm)) in He.
  destruct (renderEdges (set_ctx (ctx cm ++ frameStart c) cm)) as [c2|c2];
    cbn [bind outcome] in *; subst c2.
  - rewrite renderNodes_commands, ctx_set_ctx, set_ctx_set_ctx.
    by rewrite <- !app_assoc.
  - by rewrite app_nil_r.
Qed.

(** X7.  A frame that completes has drawn, after what the context held:
    the opening calls (transform reset, clear, background, the transform of
    the current scale and offset), then every edge of the store in store
    order, then every node of the store in store order, so node fills cover
    the edge ends; every edge resolved, and the forward matrix is left as
    the scaling by [scale] with translation [offset]. *)
Theorem paint_frame c c' :
  paint c = Normal c' ->
  Forall (resolves (store c)) (edges (store c)) /\
  ctx c' =
    ctx c ++ frameStart c ++ edgesDrawing (store c) (edges (store c)) ++
    (nodes (store c) ≫= fun node => nodeDrawing node (outlineColour c node)) /\
  matrix c' =
    [# scale c; 0; 0; scale c; Offset.x (offset c); Offset.y (offset c)].
Proof.
  intros Hpaint. pose proof (paint_commands c) as Hc.
  rewrite Hpaint in Hc. cbn [outcome] in Hc. subst c'.
  split; [apply paint_normal_iff; eauto|].
  split; [apply ctx_set_ctx|].
  rewrite matrix_set_ctx. apply createMatrix_unrotated.
Qed.

(** ** Saves and restores of the drawing context *)

Lemma contextDepth_app (l1 l2 : list DrawCmd) (d d' : nat) :
  contextDepth d l1 = Some d' ->
  contextDepth d (l1 ++ l2) = contextDepth d' l2.
Proof.
  revert d. induction l1 as [|cmd l1 IH]; intros d Hd; cbn in *.
  - congruence.
  - destruct cmd; try (apply IH; exact Hd).
    destruct d; [discriminate | apply IH; exact Hd].
Qed.

Lemma contextDepth_edgesDrawing (s : Store) (l : list NodeEdge) (d : nat) :
  contextDepth d (edgesDrawing s l) =
    Some (if decide (Forall (resolves s) l) then d else S d).
Proof.
  induction l as [|edge l IH]; cbn [edgesDrawing].
  - rewrite decide_True by constructor. reflexivity.
  - destruct (retrieveNode s (NodeEdge.startNode edge)) as [a|] eqn:Ha;
      [destruct (retrieveNode s (NodeEdge.endNode edge)) as [b|] eqn:Hb|].
    + rewrite (contextDepth_app _ _ d d) by reflexivity. rewrite IH.
      destruct (decide (Forall (resolves s) l)) as [Hl|Hl].
      * rewrite decide_True; [reflexivity|].
        constructor; [|exact Hl]. split; [rewrite Ha | rewrite Hb]; eauto.
      * rewrite decide_False; [reflexivity|].
        intros Hall. apply Forall_cons in Hall as [_ Hall]. contradiction.
    + rewrite decide_False; [reflexivity|].
      intros Hall. apply Forall_cons in Hall as [[_ [b Hb']] _]. congruence.
    + rewrite decide_False; [reflexivity|].
      intros Hall. apply Forall_cons in Hall as [[[a Ha'] _] _]. congruence.
Qed.

Lemma contextDepth_nodes (l : list CanvasNode) (colour : CanvasNode -> string)
    (d : nat) :
  contextDepth d (l ≫= fun node => nodeDrawing node (colour node)) = Some d.
Proof.
  induction l as [|n l IH]; [reflexivity|].
  rewrite bind_cons. rewrite (contextDepth_app _ _ d d) by reflexivity. exact IH.
Qed.

(** X8.  The calls of a completed frame are balanced: every [save()] is
    matched by a later [restore()], no [restore()] meets an empty stack, and
    the state stack of the context ends at the depth it started from.  A
    frame that throws leaves exactly one saved state behind, the one that
    [renderEdge] pushed before it read the absent node. *)
Theorem paint_context_depth c :
  (forall c', paint c = Normal c' ->
     exists l, ctx c' = ctx c ++ l /\ contextDepth 0 l = Some 0%nat) /\
  (forall c', paint c = TypeError c' ->
     exists l, ctx c' = ctx c ++ l /\ contextDepth 0 l = Some 1%nat).
Proof.
  pose proof (paint_commands c) as Hc.
  pose proof (paint_normal_iff c) as Hiff.
  split; intros c' Hpaint; rewrite Hpaint in Hc; cbn [outcome] in Hc; subst c';
    eexists; (split; [apply ctx_set_ctx|]).
  - rewrite (contextDepth_app (frameStart c) _ 0 0) by reflexivity.
    rewrite (contextDepth_app _ _ 0 0).
    + apply contextDepth_nodes.
    + rewrite contextDepth_edgesDrawing, decide_True; [reflexivity|].
      apply Hiff. eauto.
  - rewrite (contextDepth_app (frameStart c) _ 0 0) by reflexivity.
    rewrite app_nil_r, contextDepth_edgesDrawing, decide_False; [reflexivity|].
    intros Hall. apply Hiff in Hall as [c' Hc']. congruence.
Qed.

(** ** The transform between frames *)

(** X12.  After a frame, completed or thrown, on a canvas where
    [scale * scale], the divisor that [createMatrix] computes, is not zero:
    [toWorld] shifts a screen point by the current offset and multiplies it
    by [scale / (scale * scale)], the entry cached in the inverse; and the
    hit test returns, in store order, the ids of the nodes whose rectangle
    contains that point, bounds included.  The hypothesis leaves out the
    frames in which the code divides by zero. *)
Theorem toWorld_after_paint target c :
  scale c * scale c <> 0 ->
  toWorld (Offset.x target) (Offset.y target) (outcome (paint c)) =
    Offset.mk
      ((Offset.x target - Offset.x (offset c)) * (scale c / (scale c * scale c)))
      ((Offset.y target - Offset.y (offset c)) * (scale c / (scale c * scale c))) /\
  getSelection target (outcome (paint c)) =
    CanvasNode.id <$>
      filter
        (overlaps
           (Offset.mk
              ((Offset.x target - Offset.x (offset c))
                 * (scale c / (scale c * scale c)))
              ((Offset.y target - Offset.y (offset c))
                 * (scale c / (scale c * scale c)))))
        (nodes (store c)).
Proof.
  intros _.
  assert (toWorld (Offset.x target) (Offset.y target) (outcome (paint c)) =
          Offset.mk
            ((Offset.x target - Offset.x (offset c))
               * (scale c / (scale c * scale c)))
            ((Offset.y target - Offset.y (offset c))
               * (scale c / (scale c * scale c)))) as Hworld.
  { rewrite paint_commands.
    destruct (createMatrix_unrotated
                (Offset.x (offset c)) (Offset.y (offset c)) (scale c) c) as [Hm Him].
    unfold toWorld. rewrite matrix_set_ctx, Hm.
    change (invMatrix (set_ctx _ ?cm)) with (invMatrix cm). rewrite Him.
    cbn. f_equal; ring. }
  split; [exact Hworld|].
  rewrite getSelection_filter, Hworld. rewrite paint_commands. reflexivity.
Qed.

Lemma onMouseMove_transform (e : MouseEvent) c :
  matrix (outcome (onMouseMove e c)) = matrix c /\
  invMatrix (outcome (onMouseMove e c)) = invMatrix c.
Proof.
  unfold onMouseMove. destruct (decide _) as [Hd|Hd].
  - destruct (lastOffset c); [|split; reflexivity].
    destruct (selectedNode c); split; reflexivity.
  - unfold checkHover.
    match goal with |- context [hoveredNode ?x] => destruct (hoveredNode x) end;
      split; reflexivity.
Qed.

(** X9.  Only [paint] writes the two matrices: every handler and every
    call by the host leaves them as they are.  So after a wheel event the
    hit test still uses the transform of the last frame, until the next
    frame is painted. *)
Theorem handlers_keep_transform (w : WheelEvent) (e : MouseEvent) node
    (parsed : Store) (sz : Size) target c :
  (matrix (onWheel w c) = matrix c /\ invMatrix (onWheel w c) = invMatrix c) /\
  (matrix (onMouseDown e c) = matrix c /\ invMatrix (onMouseDown e c) = invMatrix c) /\
  (matrix (onMouseUp e c) = matrix c /\ invMatrix (onMouseUp e c) = invMatrix c) /\
  (matrix (outcome (onMouseMove e c)) = matrix c /\
   invMatrix (outcome (onMouseMove e c)) = invMatrix c) /\
  (matrix (clear c) = matrix c /\ invMatrix (clear c) = invMatrix c) /\
  (matrix (canvasDeleteNode node c) = matrix c /\
   invMatrix (canvasDeleteNode node c) = invMatrix c) /\
  (matrix (import parsed c) = matrix c /\ invMatrix (import parsed c) = invMatrix c) /\
  (matrix (resize sz c) = matrix c /\ invMatrix (resize sz c) = invMatrix c) /\
  getSelection target (onWheel w c) = getSelection target c.
Proof.
  assert (matrix (onWheel w c) = matrix c /\ invMatrix (onWheel w c) = invMatrix c)
    as Hwheel.
  { unfold onWheel. destruct (WheelEvent.ctrlKey w); split; reflexivity. }
  repeat match goal with |- _ /\ _ => split end;
    try reflexivity; try apply Hwheel; try apply onMouseMove_transform.
  apply getSelection_frame; [|apply Hwheel..].
  unfold onWheel. destruct (WheelEvent.ctrlKey w); reflexivity.
Qed.

(** ** Invariants of reachable canvases *)

(** A step leaves the two matrices as they are, or as one call of
    [createMatrix] writes them. *)
Lemma step_transform c c' :
  step c c' ->
  (matrix c' = matrix c /\ invMatrix c' = invMatrix c) \/
  (exists x y s rotate,
     matrix c' = matrix (createMatrix x y s rotate c) /\
     invMatrix c' = invMatrix (createMatrix x y s rotate c)).
Proof.
  intros Hstep.
  destruct Hstep as [e c|e c|e c|e c c' Hmove|c|node c|parsed c|sz c|c
                    |x y s rotate c|node delta c|point c].
  - left. unfold onWheel. destruct (WheelEvent.ctrlKey e); split; reflexivity.
  - left. split; reflexivity.
  - left. split; reflexivity.
  - left. destruct (onMouseMove_transform e c) as [Hm Him].
    rewrite Hmove in Hm, Him. split; assumption.
  - left. split; reflexivity.
  - left. split; reflexivity.
  - left. split; reflexivity.
  - left. split; reflexivity.
  - right. exists (Offset.x (offset c)), (Offset.y (offset c)), (scale c), 0.
    rewrite paint_commands. split; reflexivity.
  - right. exists x, y, s, rotate. split; reflexivity.
  - left. split; reflexivity.
  - left. unfold checkHover.
    match goal with |- context [hoveredNode ?x] => destruct (hoveredNode x) end;
      split; reflexivity.
Qed.

(** X10.  On every canvas reachable by calls of the methods of the class,
    direct calls of [createMatrix] with any rotation included, the two
    matrices belong together: the forward matrix has equal diagonal entries
    and opposite off-diagonal entries, and the cached inverse is the
    adjugate of its linear part over its determinant [cross], entry by
    entry as [createMatrix] computes it.  No method leaves the inverse
    behind the forward matrix. *)
Theorem reachable_transform c :
  reachable c ->
  matrix c !!! 3%fin = matrix c !!! 0%fin /\
  matrix c !!! 2%fin = - matrix c !!! 1%fin /\
  invMatrix c = adjugateOverCross c.
Proof.
  intros (sz & st & Hsteps).
  apply (rtc_ind_r (R := step)
           (fun c => matrix c !!! 3%fin = matrix c !!! 0%fin /\
                     matrix c !!! 2%fin = - matrix c !!! 1%fin /\
                     invMatrix c = adjugateOverCross c)
           (initial sz st)); [| |exact Hsteps].
  - unfold adjugateOverCross, cross. cbn.
    split; [reflexivity|]. split; [lra|].
    f_equal; [field|]. f_equal; [field|]. f_equal; [field|]. f_equal. field.
  - intros c1 c2 _ Hstep (H3 & H2 & Him).
    destruct (step_transform c1 c2 Hstep) as [[Hm Him']|(x & y & s & rotate & Hm & Him')].
    + unfold adjugateOverCross, cross in *. rewrite Hm, Him'.
      split; [exact H3|]. split; [exact H2|exact Him].
    + unfold adjugateOverCross, cross. rewrite Hm, Him'.
      split; [by rewrite createMatrix_matrix|].
      split; [by rewrite createMatrix_matrix|].
      apply createMatrix_divides_by_cross.
Qed.

Lemma step_action c c' :
  step c c' ->
  action c = NONE \/ action c = MOVE ->
  action c' = NONE \/ action c' = MOVE.
Proof.
  intros Hstep Hc.
  destruct Hstep as [e c|e c|e c|e c c' Hmove|c|node c|parsed c|sz c|c
                    |x y s rotate c|node delta c|point c].
  - left. unfold onWheel. destruct (WheelEvent.ctrlKey e); reflexivity.
  - right. reflexivity.
  - left. reflexivity.
  - unfold onMouseMove in Hmove. destruct (decide _) as [Hd|Hd].
    + destruct (lastOffset c); [|discriminate].
      injection Hmove as <-. destruct (selectedNode c); exact Hc.
    + injection Hmove as <-.
      destruct (checkHover_frame
        (Offset.mk (MouseEvent.offsetX e) (MouseEvent.offsetY e)) c)
        as (_ & _ & _ & _ & _ & _ & -> & _).
      exact Hc.
  - exact Hc.
  - exact Hc.
  - exact Hc.
  - exact Hc.
  - rewrite paint_commands. exact Hc.
  - exact Hc.
  - exact Hc.
  - destruct (checkHover_frame point c) as (_ & _ & _ & _ & _ & _ & -> & _).
    exact Hc.
Qed.

(** X13.  On every reachable canvas the action is [NONE] or [MOVE]: [ZOOM]
    and [PAN] are set and reset within one wheel event and are never left
    behind by a handler. *)
Theorem reachable_action c :
  reachable c -> action c = NONE \/ action c = MOVE.
Proof.
  intros (sz & st & Hsteps).
  apply (rtc_ind_r (R := step) (fun c => action c = NONE \/ action c = MOVE)
           (initial sz st)); [| |exact Hsteps].
  - left. reflexivity.
  - intros c1 c2 _ Hstep Hact. exact (step_action c1 c2 Hstep Hact).
Qed.

(** ** How the handlers compose *)

Lemma checkHover_store (point : Offset) c :
  store (checkHover point c) = store c.
Proof. apply checkHover_frame. Qed.

(** X14.  A wheel event, a release, a [clear] and a node deletion each end
    a drag: the pointer move that follows returns, moves no node (the store
    and the selection are as before the move) and only checks the hover. *)
Theorem pointer_move_after_drag_end (w : WheelEvent) (e0 e : MouseEvent) node c :
  (onMouseMove e (onWheel w c) =
     Normal (checkHover (Offset.mk (MouseEvent.offsetX e) (MouseEvent.offsetY e))
               (onWheel w c)) /\
   store (outcome (onMouseMove e (onWheel w c))) = store c) /\
  (onMouseMove e (onMouseUp e0 c) =
     Normal (checkHover (Offset.mk (MouseEvent.offsetX e) (MouseEvent.offsetY e))
               (onMouseUp e0 c)) /\
   store (outcome (onMouseMove e (onMouseUp e0 c))) = store c) /\
  (onMouseMove e (clear c) =
     Normal (checkHover (Offset.mk (MouseEvent.offsetX e) (MouseEvent.offsetY e))
               (clear c)) /\
   store (outcome (onMouseMove e (clear c))) = store c) /\
  (onMouseMove e (canvasDeleteNode node c) =
     Normal (checkHover (Offset.mk (MouseEvent.offsetX e) (MouseEvent.offsetY e))
               (canvasDeleteNode node c)) /\
   store (outcome (onMouseMove e (canvasDeleteNode node c)))
     = deleteNode (store c) (CanvasNode.id node)).
Proof.
  assert (action (onWheel w c) = NONE) as Hwheel.
  { unfold onWheel. destruct (WheelEvent.ctrlKey w); reflexivity. }
  assert (store (onWheel w c) = store c) as Hstore.
  { unfold onWheel. destruct (WheelEvent.ctrlKey w); reflexivity. }
  split; [|split; [|split]].
  - rewrite onMouseMove_hover by (intros [Hact _]; congruence).
    split; [reflexivity|]. cbn [outcome]. by rewrite checkHover_store.
  - rewrite onMouseMove_hover by (intros [Hact _]; discriminate Hact).
    split; [reflexivity|]. cbn [outcome]. by rewrite checkHover_store.
  - rewrite onMouseMove_hover by (intros [_ Hsel]; apply Hsel; reflexivity).
    split; [reflexivity|]. cbn [outcome]. by rewrite checkHover_store.
  - rewrite onMouseMove_hover by (intros [_ Hsel]; apply Hsel; reflexivity).
    split; [reflexivity|]. cbn [outcome]. by rewrite checkHover_store.
Qed.

(** The drag branch of [onMouseMove] when the primary selection resolves. *)
Lemma onMouseMove_drag_resolved (e : MouseEvent) c (origin : Offset) (i : ID) node :
  action c = MOVE ->
  last (selected c) = Some i ->
  retrieveNode (store c) i = Some node ->
  lastOffset c = Some origin ->
  onMouseMove e c =
    Normal
      (set_lastOffset
         (Some (Offset.mk (MouseEvent.offsetX e) (MouseEvent.offsetY e)))
         (set_store
            (updateNode (store c)
               (moveNode node
                  (Offset.mk (MouseEvent.offsetX e - Offset.x origin)
                             (MouseEvent.offsetY e - Offset.y origin)) c).1)
            c)).
Proof.
  intros Hact Hlast Hnode Horigin. unfold onMouseMove.
  rewrite decide_True
    by (apply dragging_iff; split; [exact Hact | exact (last_Some_nonempty _ _ Hlast)]).
  rewrite Horigin. unfold selectedNode. rewrite Hlast, Hnode.
  reflexivity.
Qed.

(** X15.  A drag made of two pointer moves accumulates: when the store
    returns the node it was handed after the first move, the second move
    hands the store that node with the screen delta from the point of the
    first move, divided by the scale, added to the position the first move
    produced.  Each move is measured from the pointer position before it,
    not from the press point. *)
Theorem drag_accumulates (e1 e2 : MouseEvent) c (origin : Offset) (i : ID) node :
  action c = MOVE ->
  last (selected c) = Some i ->
  retrieveNode (store c) i = Some node ->
  lastOffset c = Some origin ->
  retrieveNode
    (updateNode (store c)
       (moveNode node
          (Offset.mk (MouseEvent.offsetX e1 - Offset.x origin)
                     (MouseEvent.offsetY e1 - Offset.y origin)) c).1) i
    = Some (moveNode node
              (Offset.mk (MouseEvent.offsetX e1 - Offset.x origin)
                         (MouseEvent.offsetY e1 - Offset.y origin)) c).1 ->
  exists c1 c2,
    onMouseMove e1 c = Normal c1 /\
    onMouseMove e2 c1 = Normal c2 /\
    store c2 =
      updateNode (store c1)
        (CanvasNode.mk
           (CanvasNode.id node) (CanvasNode.name node)
           (CanvasNode.x node
              + (MouseEvent.offsetX e1 - Offset.x origin) / scale c
              + (MouseEvent.offsetX e2 - MouseEvent.offsetX e1) / scale c)
           (CanvasNode.y node
              + (MouseEvent.offsetY e1 - Offset.y origin) / scale c
              + (MouseEvent.offsetY e2 - MouseEvent.offsetY e1) / scale c)
           (CanvasNode.width node) (CanvasNode.height node)
           (CanvasNode.backgroundColor node)) /\
    lastOffset c2 = Some (Offset.mk (MouseEvent.offsetX e2) (MouseEvent.offsetY e2)).
Proof.
  intros Hact Hlast Hnode Horigin Hstored.
  eexists _, _. split; [exact (onMouseMove_drag_resolved e1 c origin i node
                                 Hact Hlast Hnode Horigin)|].
  split.
  - apply (onMouseMove_drag_resolved e2 _
             (Offset.mk (MouseEvent.offsetX e1) (MouseEvent.offsetY e1)) i
             (moveNode node
                (Offset.mk (MouseEvent.offsetX e1 - Offset.x origin)
                           (MouseEvent.offsetY e1 - Offset.y origin)) c).1).
    + exact Hact.
    + exact Hlast.
    + exact Hstored.
    + reflexivity.
  - split; reflexivity.
Qed.

(** X16.  [import] replaces the store and keeps the selection, the action
    and the last offset.  When the primary selected id is not in the new
    store, the next pointer move of a drag moves nothing: it returns with
    the imported store untouched and only records the point. *)
Theorem drag_after_import (e : MouseEvent) (parsed : Store) c (origin : Offset)
    (i : ID) :
  action c = MOVE ->
  last (selected c) = Some i ->
  lastOffset c = Some origin ->
  retrieveNode parsed i = None ->
  selected (import parsed c) = selected c /\
  onMouseMove e (import parsed c) =
    Normal
      (set_lastOffset
         (Some (Offset.mk (MouseEvent.offsetX e) (MouseEvent.offsetY e)))
         (set_store parsed c)).
Proof.
  intros Hact Hlast Horigin Hgone. split; [reflexivity|].
  apply (onMouseMove_drag_unresolved e (import parsed c) origin i);
    assumption.
Qed.

(** ** Hover and hit test *)

(** X17.  After the hover check the cursor is a pointer exactly when the
    last hit at the point resolves in the store; with no hit the hover set
    is empty and the cursor is the default one. *)
Theorem checkHover_cursor (point : Offset) c :
  (getSelection point c = [] ->
     hovered (checkHover point c) = [] /\ cursor (checkHover point c) = "default") /\
  (forall i n,
     last (getSelection point c) = Some i ->
     retrieveNode (store c) i = Some n ->
     cursor (checkHover point c) = "pointer") /\
  (forall i,
     last (getSelection point c) = Some i ->
     retrieveNode (store c) i = None ->
     cursor (checkHover point c) = "default").
Proof.
  rewrite checkHover_eq. unfold hoveredNode.
  cbn [hovered store cursor set_hovered set_cursor].
  split; [|split].
  - intros ->. split; reflexivity.
  - intros i n -> ->. reflexivity.
  - intros i -> ->. reflexivity.
Qed.

(** X18.  The result of the hit test is a subsequence of the ids of the
    store's nodes: it keeps their order, is no longer than the store, and
    has no duplicate when the ids of the store have none. *)
Theorem getSelection_sublist target c :
  getSelection target c `sublist_of` (CanvasNode.id <$> nodes (store c)) /\
  (length (getSelection target c) <= length (nodes (store c)))%nat /\
  (NoDup (CanvasNode.id <$> nodes (store c)) -> NoDup (getSelection target c)).
Proof.
  assert (getSelection target c `sublist_of` (CanvasNode.id <$> nodes (store c)))
    as Hsub.
  { rewrite getSelection_filter. apply fmap_sublist, sublist_filter. }
  split; [exact Hsub|]. split.
  - apply sublist_length in Hsub. by rewrite length_fmap in Hsub.
  - intros Hnodup. exact (sublist_NoDup _ _ Hnodup Hsub).
Qed.

End MoreProperties.

(** * The list store, and the scenarios of the spec *)

(** Decides the hit tests of [getSelection] on concrete rectangles. *)
Ltac hit_test :=
  rewrite ?getSelection_filter; unfold toWorld; cbn;
  repeat match goal with
  | |- context [decide (overlaps ?p ?n)] =>
      first
        [ rewrite (decide_True (P := overlaps p n)) by (unfold overlaps; cbn; lra)
        | rewrite (decide_False (P := overlaps p n)) by (unfold overlaps; cbn; lra) ]
  end;
  cbn.

(** Runs the drag branch of [onMouseMove] on a concrete canvas. *)
Ltac drag_step :=
  unfold onMouseMove;
  rewrite decide_True by (split; [reflexivity | cbn; lia]);
  reflexivity.

Lemma replaceNode_Forall2 (node : CanvasNode) (l : list CanvasNode) :
  Forall2
    (fun n n' => n' = n \/ (CanvasNode.id n = CanvasNode.id node /\ n' = node))
    l (replaceNode node l).
Proof.
  induction l as [|n l IH]; cbn; [constructor|].
  destruct (decide (CanvasNode.id n = CanvasNode.id node)) as [Heq|Hne].
  - constructor; [right; auto|]. apply Forall2_same_length_lookup_2; [reflexivity|].
    intros i a b Ha Hb. left. congruence.
  - constructor; [left; reflexivity | exact IH].
Qed.

#[global] Instance ListStore_frame : GraphStoreFrame ListStore.
Proof. split. intros s node. apply replaceNode_Forall2. Qed.

(** Scenario 1: a press at (15, 15) selects the node at (10, 10, 20, 20),
    and [selectedNode()] returns it. *)
Example scenario1_press :
  onMouseDown (MouseEvent.mk 15 15) demoCanvas = pressedAt 15 15 ["n1"] /\
  selectedNode (pressedAt 15 15 ["n1"]) = Some node1.
Proof.
  split; [|reflexivity].
  unfold onMouseDown, clear, onUpdate. cbn -[getSelection].
  hit_test. reflexivity.
Qed.

(** The bounds of the hit test are inclusive: the corners of the first
    node, whose rectangle is [10, 30] x [10, 30], are hits; a point just
    outside is not. *)
Example hit_on_corners :
  getSelection (Offset.mk 10 10) demoCanvas = ["n1"] /\
  getSelection (Offset.mk 30 30) demoCanvas = ["n1"] /\
  getSelection (Offset.mk 30.5 15) demoCanvas = [].
Proof. repeat split; hit_test; reflexivity. Qed.

(** A press on empty canvas selects nothing and still enters [MOVE]. *)
Example press_on_empty_canvas :
  onMouseDown (MouseEvent.mk 50 50) demoCanvas = pressedAt 50 50 [].
Proof.
  unfold onMouseDown, clear, onUpdate. cbn -[getSelection].
  hit_test. reflexivity.
Qed.



(** Scenario 2: the node ends at (20, 20), and the other node stays. *)
Example scenario2_drag :
  exists c' n,
    onMouseMove (MouseEvent.mk 25 25) (pressedAt 15 15 ["n1"]) = Normal c' /\
    nodes (store c') = [n; node2] /\
    CanvasNode.id n = "n1" /\ CanvasNode.x n = 20 /\ CanvasNode.y n = 20.
Proof.
  eexists _, _. split; [drag_step|].
  split; [reflexivity|]. cbn. repeat split; lra.
Qed.

(** Scenario 3: at scale 2 a screen delta of (20, 20) moves the node by
    (10, 10). *)
Example scenario3_drag_scaled :
  exists c' n,
    onMouseMove (MouseEvent.mk 35 35) (set_scale 2 (pressedAt 15 15 ["n1"]))
      = Normal c' /\
    retrieveNode (store c') "n1" = Some n /\
    CanvasNode.x n = CanvasNode.x node1 + 10 /\
    CanvasNode.y n = CanvasNode.y node1 + 10.
Proof.
  eexists _, _. split; [|split].
  - drag_step.
  - reflexivity.
  - cbn. split; lra.
Qed.

(** Scenarios 4 and 5: the two kinds of wheel event on a fresh canvas. *)
Example scenario4_zoom :
  scale (onWheel (WheelEvent.mk true 0 10) demoCanvas) = 1 - 0.1 /\
  offset (onWheel (WheelEvent.mk true 0 10) demoCanvas) = Offset.mk 0 0.
Proof. cbn. split; [lra | reflexivity]. Qed.

Example scenario5_pan :
  Offset.x (offset (onWheel (WheelEvent.mk false 5 5) demoCanvas)) = 0 - 10 /\
  Offset.y (offset (onWheel (WheelEvent.mk false 5 5) demoCanvas)) = 0 - 10 /\
  scale (onWheel (WheelEvent.mk false 5 5) demoCanvas) = 1.
Proof. cbn. repeat split; lra. Qed.

(** After a press on empty canvas, a move over the first node: the handler
    returns, with the selection, store, last offset, scale, offset and
    action as before. *)
Lemma onMouseMove_empty_selection_witness :
  exists c',
    onMouseMove (MouseEvent.mk 15 15) (pressedAt 50 50 []) = Normal c' /\
    hovered c' = getSelection (Offset.mk 15 15) (pressedAt 50 50 []) /\
    selected c' = [] /\
    store c' = demoStore /\
    lastOffset c' = Some (Offset.mk 50 50) /\
    scale c' = 1 /\
    offset c' = Offset.mk 0 0 /\
    action c' = MOVE.
Proof.
  exact (onMouseMove_empty_selection (MouseEvent.mk 15 15) (pressedAt 50 50 [])
           eq_refl eq_refl).
Defined.

(** Moving the first node of the demo store by the screen delta (10, 10):
    the list store meets the contract, the second node is untouched, and
    the transform state of the canvas is as before. *)
Lemma moveNode_frame_witness :
  GraphStoreFrame ListStore /\
  nodes (store (moveNode node1 (Offset.mk 10 10) demoCanvas).2)
    = [(moveNode node1 (Offset.mk 10 10) demoCanvas).1; node2] /\
  Forall2 (fun n n' => CanvasNode.id n <> "n1" -> n' = n)
    [node1; node2]
    (nodes (store (moveNode node1 (Offset.mk 10 10) demoCanvas).2)) /\
  scale (moveNode node1 (Offset.mk 10 10) demoCanvas).2 = 1 /\
  matrix (moveNode node1 (Offset.mk 10 10) demoCanvas).2 = [# 1; 0; 0; 1; 0; 0].
Proof.
  pose proof (@moveNode_frame ListStore _ ListStore_frame
                node1 (Offset.mk 10 10) demoCanvas) as Hframe.
  split; [exact ListStore_frame|].
  split; [reflexivity|].
  split; [apply Hframe|].
  split; apply Hframe.
Defined.

(** A press at (15, 15) over two stacked nodes selects both, in store
    order, and the one in front is the primary selection. *)
Example stacked_press_selects_both :
  selected (onMouseDown (MouseEvent.mk 15 15) stackedCanvas) = ["back"; "n1"].
Proof.
  unfold onMouseDown, clear, onUpdate. cbn -[getSelection].
  hit_test. reflexivity.
Qed.

Lemma onMouseDown_primary_witness :
  last (selected (onMouseDown (MouseEvent.mk 15 15) stackedCanvas)) = Some "n1".
Proof.
  apply (onMouseDown_primary (MouseEvent.mk 15 15) stackedCanvas [backNode] [] node1).
  - reflexivity.
  - unfold overlaps, toWorld. cbn. lra.
  - constructor.
Defined.

(** A press followed by a wheel event leads to a reachable canvas, on
    which a pointer move returns. *)
Lemma onMouseMove_reachable_witness :
  exists c',
    onMouseMove (MouseEvent.mk 15 15)
      (onWheel (WheelEvent.mk true 0 10)
         (onMouseDown (MouseEvent.mk 15 15) demoCanvas))
    = Normal c'.
Proof.
  apply onMouseMove_reachable.
  exists (Size.mk 800 600), demoStore.
  eapply rtc_l; [apply step_mouseDown|].
  eapply rtc_l; [apply step_wheel|].
  apply rtc_refl.
Defined.

(** ** Where the code departs from the spec *)


(** At scale zero the divisor of [createMatrix] is zero, and in the
    arithmetic of the code every entry of the cached inverse is NaN; so is
    every world point that [toWorld] then returns. *)
Example double_inverse_at_scale_zero :
  (Double.createMatrix 0 0 0 1 0 [# 1; 0; 0; 1; 0; 0]%float
     [# 1; 0; 0; 1]%float).2 = [# nan; nan; nan; nan] /\
  Double.roundTrip 0 0 0 (1, 1)%float = (nan, nan).
Proof. split; vm_compute; reflexivity. Qed.

(** C5 fails as stated: one wheel event with ctrl held and [deltaY = 100]
    takes a fresh canvas from scale 1 to scale 0, and the cross term that
    the next [createMatrix] divides by is then 0. *)
Lemma wheel_zeroes_scale :
  ~ 0 < scale (onWheel (WheelEvent.mk true 0 100) demoCanvas) /\
  cross
    (createMatrix
       (Offset.x (offset (onWheel (WheelEvent.mk true 0 100) demoCanvas)))
       (Offset.y (offset (onWheel (WheelEvent.mk true 0 100) demoCanvas)))
       (scale (onWheel (WheelEvent.mk true 0 100) demoCanvas))
       0
       (onWheel (WheelEvent.mk true 0 100) demoCanvas)) = 0.
Proof.
  rewrite cross_createMatrix. cbn. split; lra.
Qed.

(** C6 fails as stated: the edge with the absent end node is not skipped.
    [renderEdge] throws on it, [renderEdges] stops there without having
    stroked the edge that resolves, and [paint] does not complete. *)
Lemma dangling_edge_throws :
  renderEdge (NodeEdge.mk "n1" "gone") danglingCanvas
    = TypeError (set_ctx [Save] danglingCanvas) /\
  renderEdges danglingCanvas = TypeError (set_ctx [Save] danglingCanvas) /\
  ~ exists c', paint danglingCanvas = Normal c'.
Proof.
  assert (~ resolves (store danglingCanvas) (NodeEdge.mk "n1" "gone")) as Hgone.
  { intros [_ [n Hn]]. discriminate Hn. }
  split; [|split].
  - apply (renderEdge_unresolved _ _ Hgone).
  - unfold renderEdges.
    change (edges (store danglingCanvas))
      with [NodeEdge.mk "n1" "gone"; NodeEdge.mk "n1" "n1"].
    cbn [foldl bind]. rewrite (renderEdge_unresolved _ _ Hgone). reflexivity.
  - rewrite paint_normal_iff. intros Hall.
    apply Forall_cons in Hall as [Hfirst _]. exact (Hgone Hfirst).
Qed.

(** C7 fails as stated: the move that drags the first node from (10, 10)
    to (20, 20) returns with [onUpdate] not called. *)
Lemma drag_without_onUpdate :
  exists c' n,
    onMouseMove (MouseEvent.mk 25 25) (pressedAt 15 15 ["n1"]) = Normal c' /\
    retrieveNode (store c') "n1" = Some n /\
    CanvasNode.x n = 20 /\ CanvasNode.y n = 20 /\
    updates c' = updates (pressedAt 15 15 ["n1"]).
Proof.
  eexists _, _. split; [|split].
  - drag_step.
  - reflexivity.
  - cbn. repeat split; lra.
Qed.

(** C8 fails as stated: after a press on empty canvas the action is [MOVE]
    and the selection is empty, and a move over the first node changes the
    hover set from empty to that node, and the cursor with it. *)
Lemma move_with_empty_selection_hovers :
  action (pressedAt 50 50 []) = MOVE /\
  selected (pressedAt 50 50 []) = [] /\
  hovered (pressedAt 50 50 []) = [] /\
  exists c',
    onMouseMove (MouseEvent.mk 15 15) (pressedAt 50 50 []) = Normal c' /\
    hovered c' = ["n1"] /\
    cursor c' = "pointer".
Proof.
  split; [reflexivity|]. split; [reflexivity|]. split; [reflexivity|].
  eexists. split.
  - apply onMouseMove_hover. cbn. intros [_ Hne]. contradiction.
  - unfold checkHover. cbn -[getSelection]. hit_test. split; reflexivity.
Qed.

(** ** Instances of the further properties *)

(** The demo canvas zoomed in to scale 2 by a wheel event, then painted. *)
Abbreviation zoomedCanvas :=
  (outcome (paint (onWheel (WheelEvent.mk true 0 (-100)) demoCanvas))).

Lemma zoomedCanvas_reachable : reachable zoomedCanvas.
Proof.
  exists (Size.mk 800 600), demoStore.
  apply (rtc_l step _ (onWheel (WheelEvent.mk true 0 (-100)) demoCanvas));
    [apply step_wheel|].
  apply (rtc_l step _ zoomedCanvas); [apply step_paint|].
  apply rtc_refl.
Qed.

Lemma demoCanvas_paints : exists c', paint demoCanvas = Normal c'.
Proof.
  apply paint_normal_iff. apply Forall_cons. split; [|constructor].
  split; eexists; reflexivity.
Qed.

(** The first frame of the demo canvas: opening calls, the one edge, the
    two nodes. *)
Lemma paint_frame_witness :
  ctx (outcome (paint demoCanvas)) =
    ctx demoCanvas ++ frameStart demoCanvas ++
    edgesDrawing (store demoCanvas) (edges (store demoCanvas)) ++
    (nodes (store demoCanvas)
       ≫= fun node => nodeDrawing node (outlineColour demoCanvas node)).
Proof.
  destruct demoCanvas_paints as [c' Hc']. rewrite Hc'. cbn [outcome].
  exact (proj1 (proj2 (paint_frame demoCanvas c' Hc'))).
Defined.

(** The matrices of the zoomed canvas belong together. *)
Lemma reachable_transform_witness :
  matrix zoomedCanvas !!! 3%fin = matrix zoomedCanvas !!! 0%fin /\
  matrix zoomedCanvas !!! 2%fin = - matrix zoomedCanvas !!! 1%fin /\
  invMatrix zoomedCanvas = adjugateOverCross zoomedCanvas.
Proof.
  apply (reachable_transform zoomedCanvas). apply zoomedCanvas_reachable.
Defined.

(** After the frame at scale 2 and offset (0, 0): the screen point (30, 30)
    is the world point (30 * (2 / (2 * 2)), 30 * (2 / (2 * 2))), inside the
    first node. *)
Lemma toWorld_after_paint_witness :
  toWorld 30 30 zoomedCanvas =
    Offset.mk
      ((30 - Offset.x (offset (onWheel (WheelEvent.mk true 0 (-100)) demoCanvas)))
         * (scale (onWheel (WheelEvent.mk true 0 (-100)) demoCanvas)
            / (scale (onWheel (WheelEvent.mk true 0 (-100)) demoCanvas)
               * scale (onWheel (WheelEvent.mk true 0 (-100)) demoCanvas))))
      ((30 - Offset.y (offset (onWheel (WheelEvent.mk true 0 (-100)) demoCanvas)))
         * (scale (onWheel (WheelEvent.mk true 0 (-100)) demoCanvas)
            / (scale (onWheel (WheelEvent.mk true 0 (-100)) demoCanvas)
               * scale (onWheel (WheelEvent.mk true 0 (-100)) demoCanvas)))).
Proof.
  apply (toWorld_after_paint (Offset.mk 30 30)
           (onWheel (WheelEvent.mk true 0 (-100)) demoCanvas)).
  cbn. lra.
Defined.

Lemma reachable_action_witness :
  action zoomedCanvas = NONE \/ action zoomedCanvas = MOVE.
Proof.
  apply (reachable_action zoomedCanvas). apply zoomedCanvas_reachable.
Defined.

(** A drag of the first node from the press at (15, 15) over (25, 25) to
    (35, 20): the node handed to the store last sits at
    (10 + (25 - 15) / 1 + (35 - 25) / 1, 10 + (25 - 15) / 1 + (20 - 25) / 1). *)
Lemma drag_accumulates_witness :
  exists c1 c2,
    onMouseMove (MouseEvent.mk 25 25) (pressedAt 15 15 ["n1"]) = Normal c1 /\
    onMouseMove (MouseEvent.mk 35 20) c1 = Normal c2 /\
    store c2 =
      updateNode (store c1)
        (CanvasNode.mk "n1" "first"
           (10 + (25 - 15) / 1 + (35 - 25) / 1)
           (10 + (25 - 15) / 1 + (20 - 25) / 1) 20 20 None) /\
    lastOffset c2 = Some (Offset.mk 35 20).
Proof.
  exact (drag_accumulates (MouseEvent.mk 25 25) (MouseEvent.mk 35 20)
           (pressedAt 15 15 ["n1"]) (Offset.mk 15 15) "n1" node1
           eq_refl eq_refl eq_refl eq_refl eq_refl).
Defined.

(** During a drag of the first node, a store without that node is
    imported: the next move changes no node. *)
Lemma drag_after_import_witness :
  selected (import (mkListStore [node2] []) (pressedAt 15 15 ["n1"])) = ["n1"] /\
  onMouseMove (MouseEvent.mk 25 25)
    (import (mkListStore [node2] []) (pressedAt 15 15 ["n1"]))
  = Normal
      (set_lastOffset (Some (Offset.mk 25 25))
         (set_store (mkListStore [node2] []) (pressedAt 15 15 ["n1"]))).
Proof.
  exact (drag_after_import (MouseEvent.mk 25 25) (mkListStore [node2] [])
           (pressedAt 15 15 ["n1"]) (Offset.mk 15 15) "n1"
           eq_refl eq_refl eq_refl eq_refl).
Defined.
